(** * Spotify listening analytics: the loader, the merge and the dashboard filter

    A shallow embedding of [combined_spotify_analytics.py] (class
    [CombinedSpotifyAnalytics] and [main]) and of the data loader and season
    labelling of [streamlit_app.py].

    Conventions of the embedding.
    - A pandas DataFrame is the list of its rows, in positional order; a row is
      a record whose fields are the columns.  A missing value (NaN, None, NaT)
      is [None].
    - A timestamp is an absolute instant, counted in nanoseconds since the Unix
      epoch (the resolution of a pandas Timestamp).  Rows carry a parsed
      timestamp: the text-to-instant parsing of [pd.to_datetime] is not
      modelled.
    - The methods of the class mutate [self] and may raise: they live in a
      state-and-exception monad whose state survives a raised exception, as a
      Python object does.
    - Console output ([print]) is not modelled. *)

From Stdlib Require Import ZArith Lia.
From stdpp Require Import base tactics option list strings sorting.

Local Open Scope Z_scope.

(** ** Data model *)

Definition Timestamp : Type := Z.

(** One nanosecond-resolution millisecond. *)
Definition one_ms : Z := 1000000.

Module Csv.
(** A row of the streaming-history export.  [C] is the type of a text cell:
    [string] in the file, [option string] once [pd.read_csv] has replaced the
    missing-value markers by NaN. *)
Record row {C : Type} : Type := mk_row {
  ts : Timestamp;
  ms_played : option Z;
  content_type : C;
  master_metadata_track_name : C;
  master_metadata_album_artist_name : C;
  master_metadata_album_album_name : C;
  spotify_track_uri : C;
  platform : C;
  conn_country : C;
  shuffle : option bool;
  skipped : option bool
}.
Global Arguments row : clear implicits.
Global Arguments mk_row {C}.
End Csv.

(** The canonical record of one listen: the ten columns that
    [load_historical_csv] selects and [fetch_recent_api_data] builds. *)
Record PlayEvent : Type := mk_event {
  played_at : Timestamp;
  track_name : option string;
  artist_name : option string;
  album_name : option string;
  duration_ms : option Z;
  spotify_track_uri : option string;
  platform : option string;
  conn_country : option string;
  shuffle : option bool;
  skipped : option bool
}.

Abbreviation DataFrame := (list PlayEvent).

Module Api.
(** The part of a "recently played" response that the fetcher reads. *)
Record artist : Type := mk_artist { artist_name : string }.
Record album : Type := mk_album { album_name : string }.
Record track : Type := mk_track {
  name : string;
  artists : list artist;
  album_of : option album;
  duration_ms : Z;
  uri : string
}.
Record item : Type := mk_item { played_at : Timestamp; track_of : track }.
End Api.

(** ** pandas primitives *)

(** [df[mask]]: boolean-mask row selection. *)
Fixpoint loc_mask {A : Type} (mask : list bool) (df : list A) : list A :=
  match mask, df with
  | b :: mask', r :: df' => if b then r :: loc_mask mask' df' else loc_mask mask' df'
  | _, _ => []
  end.

(** The text cells [pd.read_csv] reads as NaN under its default arguments. *)
Definition STR_NA_VALUES : list string :=
  [ EmptyString; "#N/A"; "#N/A N/A"; "#NA"; "-1.#IND"; "-1.#QNAN"; "-NaN"; "-nan";
    "1.#IND"; "1.#QNAN"; "<NA>"; "N/A"; "NA"; "NULL"; "NaN"; "None"; "n/a";
    "nan"; "null" ]%string.

Definition na_filter (cell : string) : option string :=
  if bool_decide (cell ∈ STR_NA_VALUES) then None else Some cell.

Definition read_csv_row (r : Csv.row string) : Csv.row (option string) :=
  Csv.mk_row
    (Csv.ts r) (Csv.ms_played r)
    (na_filter (Csv.content_type r))
    (na_filter (Csv.master_metadata_track_name r))
    (na_filter (Csv.master_metadata_album_artist_name r))
    (na_filter (Csv.master_metadata_album_album_name r))
    (na_filter (Csv.spotify_track_uri r))
    (na_filter (Csv.platform r))
    (na_filter (Csv.conn_country r))
    (Csv.shuffle r) (Csv.skipped r).

Definition read_csv (file : list (Csv.row string)) : list (Csv.row (option string)) :=
  fmap read_csv_row file.

(** [series >= c] on a numeric column: NaN compares false. *)
Definition ge_scalar (v : option Z) (c : Z) : bool :=
  match v with
  | Some x => bool_decide (c ≤ x)
  | None => false
  end.

(** [series == s] on a text column: NaN compares false. *)
Definition eq_scalar (v : option string) (s : string) : bool :=
  match v with
  | Some x => bool_decide (x = s)
  | None => false
  end.

(** [series.notna()]. *)
Definition notna {A : Type} (v : option A) : bool :=
  match v with
  | Some _ => true
  | None => false
  end.

(** [series.max()] on a timestamp column: NaT on an empty column. *)
Definition series_max (col : list Timestamp) : option Timestamp :=
  match col with
  | [] => None
  | t :: col' => Some (foldl Z.max t col')
  end.

(** [series > t] on a timestamp column: every comparison with NaT is false. *)
Definition gt_timestamp (v : Timestamp) (t : option Timestamp) : bool :=
  match t with
  | Some c => bool_decide (c < v)
  | None => false
  end.

(** ** Historical loader: the table transformation of [load_historical_csv] *)

Definition MIN_PLAY_TIME_MS : Z := 30000.
Definition CONTENT_TYPE_FILTER : string := "audio".

(** The column assignments [df['played_at'] = df['timestamp']], ... followed by
    the selection of the ten canonical columns. *)
Definition standardize (r : Csv.row (option string)) : PlayEvent :=
  mk_event
    (Csv.ts r)
    (Csv.master_metadata_track_name r)
    (Csv.master_metadata_album_artist_name r)
    (Csv.master_metadata_album_album_name r)
    (Csv.ms_played r)
    (Csv.spotify_track_uri r)
    (Csv.platform r)
    (Csv.conn_country r)
    (Csv.shuffle r)
    (Csv.skipped r).

(** [df = df[df['ms_played'] >= MIN_PLAY_TIME_MS]] *)
Definition filter_short_plays (df : list (Csv.row (option string))) :
    list (Csv.row (option string)) :=
  loc_mask (fmap (λ r, ge_scalar (Csv.ms_played r) MIN_PLAY_TIME_MS) df) df.

(** [df = df[df['content_type'] == CONTENT_TYPE_FILTER]] *)
Definition filter_content_type (df : list (Csv.row (option string))) :
    list (Csv.row (option string)) :=
  loc_mask (fmap (λ r, eq_scalar (Csv.content_type r) CONTENT_TYPE_FILTER) df) df.

(** [df = df[df['track_name'].notna()]] *)
Definition filter_null_tracks (df : DataFrame) : DataFrame :=
  loc_mask (fmap (λ e, notna (track_name e)) df) df.

Definition historical_table (file : list (Csv.row string)) : DataFrame :=
  let df := read_csv file in
  let df := filter_short_plays df in
  let df := filter_content_type df in
  let df := fmap standardize df in
  filter_null_tracks df.

(** ** The object, its environment and the monad of its methods *)

(** What an uncaught Python exception can be in the modelled code. *)
Inductive ApiFailure : Type := AuthExpired | RateLimited | NetworkDown.

Inductive Exn : Type :=
  | KeyError
  | ValueError
  | SpotifyException (why : ApiFailure).

(** The handle returned by [spotipy.Spotify(auth_manager=...)]. *)
Inductive Spotify : Type := spotipy_client.

(** What the run reads from outside: the export at [csv_path] ([None] when the
    path does not exist), whether the API client can be built, and what the
    "recently played" endpoint answers to a request for [limit] items. *)
Record World : Type := mk_world {
  csv_file : option (list (Csv.row string));
  oauth_ok : bool;
  recently_played : Z → Exn + list Api.item
}.

(** The attributes of a [CombinedSpotifyAnalytics] object, together with the
    file [data/combined_listening_history.csv] that the run may write. *)
Record State : Type := mk_state {
  sp : option Spotify;
  historical_data : option DataFrame;
  api_data : option DataFrame;
  combined_data : option DataFrame;
  saved_csv : option DataFrame
}.

Definition M (A : Type) : Type := State → State * (Exn + A).

Global Instance M_ret : MRet M := λ A (a : A) s, (s, inr a).

Global Instance M_bind : MBind M := λ A B (k : A → M B) (m : M A) s,
  match m s with
  | (s', inr a) => k a s'
  | (s', inl e) => (s', inl e)
  end.

Definition get : M State := λ s, (s, inr s).

Definition raise {A : Type} (e : Exn) : M A := λ s, (s, inl e).

(** [try: body except Exception as e: handler]: the handler runs in the state
    the body had reached when it raised. *)
Definition try_except {A : Type} (body : M A) (handler : Exn → M A) : M A := λ s,
  match body s with
  | (s', inl e) => handler e s'
  | r => r
  end.

Definition set_historical_data (df : DataFrame) : M unit := λ s,
  (mk_state (sp s) (Some df) (api_data s) (combined_data s) (saved_csv s), inr tt).

Definition set_api_data (df : DataFrame) : M unit := λ s,
  (mk_state (sp s) (historical_data s) (Some df) (combined_data s) (saved_csv s), inr tt).

Definition set_combined_data (df : DataFrame) : M unit := λ s,
  (mk_state (sp s) (historical_data s) (api_data s) (Some df) (saved_csv s), inr tt).

Definition to_csv (df : DataFrame) : M unit := λ s,
  (mk_state (sp s) (historical_data s) (api_data s) (combined_data s) (Some df), inr tt).

(** ** Methods of [CombinedSpotifyAnalytics] *)

Definition _init_spotify_client (w : World) : option Spotify :=
  if oauth_ok w then Some spotipy_client else None.

(** [__init__] *)
Definition CombinedSpotifyAnalytics (w : World) : State :=
  mk_state (_init_spotify_client w) None None None None.

Definition load_historical_csv (w : World) : M bool :=
  match csv_file w with
  | None => mret false
  | Some file =>
      set_historical_data (historical_table file);;
      mret true
  end.

(** One entry of [all_tracks]. *)
Definition api_row (item : Api.item) : PlayEvent :=
  let track := Api.track_of item in
  mk_event
    (Api.played_at item)
    (Some (Api.name track))
    (match Api.artists track with
     | a :: _ => Some (Api.artist_name a)
     | [] => None
     end)
    (match Api.album_of track with
     | Some al => Some (Api.album_name al)
     | None => None
     end)
    (Some (Api.duration_ms track))
    (Some (Api.uri track))
    (Some "API"%string)
    None None None.

Definition current_user_recently_played (w : World) (client : Spotify) (limit : Z) :
    M (list Api.item) :=
  match recently_played w limit with
  | inl e => raise e
  | inr items => mret items
  end.

(** [self.api_data['played_at'] = pd.to_datetime(self.api_data['played_at'])]:
    a DataFrame built from an empty list of records has no columns, and
    selecting one raises [KeyError]. *)
Definition convert_played_at : M unit :=
  self ← get;
  match api_data self with
  | Some (_ :: _) => mret tt
  | _ => raise KeyError
  end.

Definition fetch_recent_api_data (w : World) (limit : Z) : M bool :=
  self ← get;
  match sp self with
  | None => mret false
  | Some client =>
      try_except
        (results ← current_user_recently_played w client limit;
         let all_tracks := fmap api_row results in
         set_api_data all_tracks;;
         convert_played_at;;
         mret true)
        (λ e, mret false)
  end.

(** ** Merge *)

Definition dedup_key : Type := Timestamp * option string * option string.

(** The [subset] of [drop_duplicates]. *)
Definition subset_key (r : PlayEvent) : dedup_key :=
  (played_at r, track_name r, artist_name r).

(** [df.duplicated(subset=..., keep='first')]: a row is marked when its key was
    met on an earlier row; missing values are equal to each other. *)
Fixpoint duplicated_from (seen : list dedup_key) (df : DataFrame) : list bool :=
  match df with
  | [] => []
  | r :: df' =>
      bool_decide (subset_key r ∈ seen) :: duplicated_from (subset_key r :: seen) df'
  end.

Definition duplicated (df : DataFrame) : list bool := duplicated_from [] df.

Definition drop_duplicates (df : DataFrame) : DataFrame :=
  loc_mask (fmap negb (duplicated df)) df.

(** The rows that survive when the keys in [seen] have been met already: the
    induction-friendly form of [drop_duplicates]. *)
Definition dedup_from (seen : list dedup_key) (df : DataFrame) : DataFrame :=
  loc_mask (fmap negb (duplicated_from seen df)) df.

(** [new_api_data]: the rows of the API table newer than the historical data. *)
Definition new_api_data (combined api : DataFrame) : DataFrame :=
  let last_historical_date := series_max (fmap played_at combined) in
  loc_mask (fmap (λ r, gt_timestamp (played_at r) last_historical_date) api) api.

(** The value of [combined] when [combine_data] reaches its sort. *)
Definition concatenated (historical : DataFrame) (api : option DataFrame) : DataFrame :=
  let combined := historical in
  match api with
  | Some api =>
      if bool_decide (0 < length api)%nat then
        let new := new_api_data combined api in
        if bool_decide (0 < length new)%nat then combined ++ new else combined
      else combined
  | None => combined
  end.

(** Order of two rows in [sort_values('played_at')]. *)
Definition played_at_le (r1 r2 : PlayEvent) : Prop := played_at r1 ≤ played_at r2.

Global Instance played_at_le_dec : RelDecision played_at_le.
Proof. intros r1 r2. unfold played_at_le. apply _. Defined.

Global Instance played_at_le_total : Total played_at_le.
Proof. intros r1 r2. unfold played_at_le. lia. Qed.

Global Instance played_at_le_trans : Transitive played_at_le.
Proof. intros r1 r2 r3. unfold played_at_le. lia. Qed.

(** A stable instance of [sort_values], used to run the model. *)
Definition stable_sort_values (df : DataFrame) : DataFrame :=
  merge_sort played_at_le df.

(** The date range of [get_statistics]; [NaT.strftime] raises [ValueError]. *)
Definition series_min (col : list Timestamp) : option Timestamp :=
  match col with
  | [] => None
  | t :: col' => Some (foldl Z.min t col')
  end.

Record Statistics : Type := mk_stats {
  total_streams : nat;
  date_range_first : Timestamp;
  date_range_last : Timestamp
}.

Definition strftime (t : option Timestamp) : M Timestamp :=
  match t with
  | Some d => mret d
  | None => raise ValueError
  end.

(** The counts and rankings that [get_statistics] also computes read the table
    without raising; they are left out of [Statistics]. *)
Definition get_statistics : M (option Statistics) :=
  self ← get;
  match combined_data self with
  | None => mret None
  | Some df =>
      first ← strftime (series_min (fmap played_at df));
      last ← strftime (series_max (fmap played_at df));
      mret (Some (mk_stats (length df) first last))
  end.

Definition print_statistics : M unit :=
  stats ← get_statistics;
  mret tt.

Definition save_combined_data : M bool :=
  self ← get;
  match combined_data self with
  | None => mret false
  | Some df =>
      to_csv df;;
      mret true
  end.

Section Merge.

(** [DataFrame.sort_values('played_at')] uses an unstable sort by default: all
    that is known of its result is that it is the same rows, in ascending
    order. *)
Variable sort_values : DataFrame → DataFrame.
Hypothesis sort_values_perm : ∀ df, sort_values df ≡ₚ df.
Hypothesis sort_values_sorted : ∀ df, Sorted played_at_le (sort_values df).

Definition merged (historical : DataFrame) (api : option DataFrame) : DataFrame :=
  let combined := concatenated historical api in
  let combined := sort_values combined in
  drop_duplicates combined.

Definition combine_data : M bool :=
  self ← get;
  match historical_data self with
  | None => mret false
  | Some historical =>
      set_combined_data (merged historical (api_data self));;
      mret true
  end.

(** The body of [main]: it returns early, normally, when a step reports
    failure. *)
Definition main_body (w : World) : M unit :=
  ok ← load_historical_csv w;
  if negb ok then mret tt else
  fetch_recent_api_data w 50;;
  ok ← combine_data;
  if negb ok then mret tt else
  print_statistics;;
  save_combined_data;;
  mret tt.

(** What a run of the script leaves behind: the exit status of the interpreter
    (0 when [main] returns, 1 on an uncaught exception) and the combined file
    it wrote, if any. *)
Record Outcome : Type := mk_outcome {
  exit_status : Z;
  written : option DataFrame
}.

Definition main (w : World) : Outcome :=
  let '(s, r) := main_body w (CombinedSpotifyAnalytics w) in
  mk_outcome (match r with inr _ => 0 | inl _ => 1 end) (saved_csv s).

End Merge.

(** ** Dashboard: [load_data] and the seasonal labelling of [streamlit_app.py] *)

Definition NS_PER_SECOND : Z := 1000000000.
Definition NS_PER_DAY : Z := 86400 * NS_PER_SECOND.

(** Proleptic Gregorian date [(year, month, day)] of a day number counted from
    1970-01-01: what the [.dt] accessors of pandas compute. *)
Definition civil_from_days (z : Z) : Z * Z * Z :=
  let z := z + 719468 in
  let era := z `div` 146097 in
  let doe := z - era * 146097 in
  let yoe := (doe - doe `div` 1460 + doe `div` 36524 - doe `div` 146096) `div` 365 in
  let y := yoe + era * 400 in
  let doy := doe - (365 * yoe + yoe `div` 4 - yoe `div` 100) in
  let mp := (5 * doy + 2) `div` 153 in
  let d := doy - (153 * mp + 2) `div` 5 + 1 in
  let m := if bool_decide (mp < 10) then mp + 3 else mp - 9 in
  (if bool_decide (m ≤ 2) then y + 1 else y, m, d).

Definition dt_date (wall : Z) : Z := wall `div` NS_PER_DAY.
Definition dt_year (wall : Z) : Z := (civil_from_days (dt_date wall)).1.1.
Definition dt_month (wall : Z) : Z := (civil_from_days (dt_date wall)).1.2.
Definition dt_hour (wall : Z) : Z := (wall `mod` NS_PER_DAY) `div` (3600 * NS_PER_SECOND).

(** Monday is 0; 1970-01-01 was a Thursday. *)
Definition dt_dayofweek (wall : Z) : Z := (dt_date wall + 3) `mod` 7.

Definition dt_day_name (wall : Z) : string :=
  let d := dt_dayofweek wall in
  if bool_decide (d = 0) then "Monday"
  else if bool_decide (d = 1) then "Tuesday"
  else if bool_decide (d = 2) then "Wednesday"
  else if bool_decide (d = 3) then "Thursday"
  else if bool_decide (d = 4) then "Friday"
  else if bool_decide (d = 5) then "Saturday"
  else "Sunday".

(** A row of the dashboard's working dataframe: the columns of the merged file
    and the columns [load_data] adds.  The float column [minutes] is left
    out. *)
Record DashRow : Type := mk_dash {
  merged_row : PlayEvent;
  played_at_local : Z;
  year : Z;
  month : Z;
  hour : Z;
  day_of_week : Z;
  day_name : string;
  date : Z
}.

Definition get_season (month : Z) : string :=
  if bool_decide (month ∈ [12; 1; 2]) then "Winter"
  else if bool_decide (month ∈ [3; 4; 5]) then "Spring"
  else if bool_decide (month ∈ [6; 7; 8]) then "Summer"
  else "Fall".

Definition season_order : list string := ["Winter"; "Spring"; "Summer"; "Fall"]%string.

Section Dashboard.

(** The zone table of US/Eastern is not part of the repository: [utc_offset t]
    is the offset from UTC, in seconds, in force in that zone at instant [t]. *)
Variable utc_offset : Timestamp → Z.

(** [.dt.tz_convert('US/Eastern')]: the wall-clock reading of the instant. *)
Definition tz_convert (t : Timestamp) : Z := t + utc_offset t * NS_PER_SECOND.

Definition load_data (file : DataFrame) : list DashRow :=
  let df := fmap (λ r, (r, tz_convert (played_at r))) file in
  let df := loc_mask (fmap (λ p, bool_decide (2017 ≤ dt_year p.2)) df) df in
  fmap (λ p,
    mk_dash p.1 p.2 (dt_year p.2) (dt_month p.2) (dt_hour p.2)
            (dt_dayofweek p.2) (dt_day_name p.2) (dt_date p.2)) df.

(** [sorted(df['year'].unique())] *)
Definition available_years (df : list DashRow) : list Z :=
  merge_sort Z.le (remove_dups (fmap year df)).

(** [df[(df['year'] >= start_year) & (df['year'] <= end_year)]] *)
Definition filtered_df (df : list DashRow) (start_year end_year : Z) : list DashRow :=
  loc_mask
    (fmap (λ r, bool_decide (start_year ≤ year r) && bool_decide (year r ≤ end_year)) df) df.

(** [series.nunique()]: number of distinct values, missing ones not counted. *)
Definition nunique (col : list (option string)) : nat :=
  length (remove_dups (omap id col)).

(** [filtered_df.groupby('season').size().reindex(season_order)]: a season
    without a row has no group, and reindexing leaves it missing. *)
Definition all_season_totals (fdf : list DashRow) : list (option nat) :=
  fmap (λ s,
    let n := length (filter (λ r, get_season (month r) = s) fdf) in
    if bool_decide (n = 0%nat) then None else Some n) season_order.

(** The figures the page derives for a selected year range. *)
Record Summary : Type := mk_summary {
  years : list Z;
  total_plays : nat;
  artists : nat;
  new_artists_in_range : nat;
  season_totals : list (option nat)
}.

(** [first_listen_year = df.groupby('artist_name')['year'].min()] followed by
    the count of the artists whose first year lies in the range. *)
Definition first_listen_years (df : list DashRow) : list Z :=
  omap (λ a : string,
    series_min (fmap year (filter (λ r, artist_name (merged_row r) = Some a) df)))
    (remove_dups (omap (λ r, artist_name (merged_row r)) df)).

Definition summary (file : DataFrame) (start_year end_year : Z) : Summary :=
  let df := load_data file in
  let fdf := filtered_df df start_year end_year in
  mk_summary
    (available_years df)
    (length fdf)
    (nunique (fmap (λ r, artist_name (merged_row r)) fdf))
    (length (filter (λ y, start_year ≤ y ∧ y ≤ end_year) (first_listen_years df)))
    (all_season_totals fdf).

End Dashboard.

(** A fixed-offset zone (Eastern Standard Time, UTC-5), used to run the model. *)
Definition est_offset (t : Timestamp) : Z := -18000.

(** The Loader's output: the [historical_data] attribute after
    [load_historical_csv] has run on a fresh object. *)
Definition loader_output (w : World) : option DataFrame :=
  historical_data (load_historical_csv w (CombinedSpotifyAnalytics w)).1.

(** The Recent table the run works with: the [api_data] attribute after
    [fetch_recent_api_data(limit=50)] has run on a fresh object. *)
Definition fetched_api (w : World) : option DataFrame :=
  api_data (fetch_recent_api_data w 50 (CombinedSpotifyAnalytics w)).1.

(** ** Rankings: [value_counts().head(n)] in [get_statistics] and on the page *)

(** [series.unique()]: the distinct values in order of first appearance. *)
Definition series_unique {A : Type} `{EqDecision A} (col : list A) : list A :=
  reverse (remove_dups (reverse col)).

(** Number of rows of a text column that hold the value [v]. *)
Definition count_of (col : list (option string)) (v : string) : nat :=
  length (filter (λ x, x = Some v) col).

(** Order of two entries of a ranking: by decreasing count. *)
Definition counts_desc (a b : string * nat) : Prop := (b.2 ≤ a.2)%nat.

Global Instance counts_desc_dec : RelDecision counts_desc.
Proof. intros a b. unfold counts_desc. apply _. Defined.

Global Instance counts_desc_total : Total counts_desc.
Proof. intros a b. unfold counts_desc. lia. Qed.

Global Instance counts_desc_trans : Transitive counts_desc.
Proof. intros a b c. unfold counts_desc. lia. Qed.

(** A stable instance of the sort inside [value_counts], used to run the
    model. *)
Definition stable_sort_counts (l : list (string * nat)) : list (string * nat) :=
  merge_sort counts_desc l.

Section ValueCounts.

(** [value_counts] sorts its counts in decreasing order with the default,
    unstable sort: the order among equal counts is not fixed. *)
Variable sort_counts : list (string * nat) → list (string * nat).

(** [series.value_counts()]: the count of every value present, missing values
    left out, largest count first. *)
Definition value_counts (col : list (option string)) : list (string * nat) :=
  sort_counts (fmap (λ v, (v, count_of col v)) (series_unique (omap id col))).

(** [stats['top_10_artists']] of [get_statistics]:
    [df['artist_name'].value_counts().head(10)]. *)
Definition top_10_artists (df : DataFrame) : list (string * nat) :=
  take 10 (value_counts (fmap artist_name df)).

(** [top_artists] and [top_songs] of the page. *)
Definition top_artists (fdf : list DashRow) : list (string * nat) :=
  take 10 (value_counts (fmap (λ r, artist_name (merged_row r)) fdf)).

Definition top_songs (fdf : list DashRow) : list (string * nat) :=
  take 10 (value_counts (fmap (λ r, track_name (merged_row r)) fdf)).

End ValueCounts.

(** [filtered_df[filtered_df['track_name'] == song]['artist_name'].iloc[0]]:
    the artist shown beside a song.  [None] stands for the [IndexError] of
    [.iloc[0]] on an empty selection. *)
Definition song_artist (fdf : list DashRow) (song : string) : option (option string) :=
  fmap (λ r, artist_name (merged_row r))
    (loc_mask (fmap (λ r, eq_scalar (track_name (merged_row r)) song) fdf) fdf) !! 0%nat.

(** ** The year selector and the clock charts of the page *)

(** [min_year = min(available_years)] and [max_year]: [None] stands for the
    [ValueError] that [min] and [max] raise on an empty list. *)
Definition min_year (available : list Z) : option Z := series_min available.
Definition max_year (available : list Z) : option Z := series_max available.

(** The start-year box opens on [index=0]. *)
Definition default_start_year (available : list Z) : option Z := available !! 0%nat.

(** [valid_end_years = [y for y in available_years if y >= start_year]] *)
Definition valid_end_years (available : list Z) (start_year : Z) : list Z :=
  filter (λ y, start_year ≤ y) available.

(** The end-year box opens on [index = len(valid_end_years) - 1]. *)
Definition default_end_year (available : list Z) (start_year : Z) : option Z :=
  let valid := valid_end_years available start_year in
  valid !! (length valid - 1)%nat.

(** [num_years = end_year - start_year + 1], the divisor of [avg_per_year]. *)
Definition num_years (start_year end_year : Z) : Z := end_year - start_year + 1.

(** [filtered_df.groupby('hour').size().reindex(range(24), fill_value=0)] *)
Definition hour_counts (fdf : list DashRow) : list nat :=
  fmap (λ h, length (filter (λ r, hour r = h) fdf)) (fmap Z.of_nat (seq 0 24)).

Section Discovery.

Variable utc_offset : Timestamp → Z.

(** [first_plays = df.groupby('artist_name')['played_at_local'].min()], read at
    one artist: the earliest instant at which a row of the artist was played.
    The column is zone-aware: its minimum is the earliest instant, and its
    [.dt] fields are read on the local clock. *)
Definition first_play (df : list DashRow) (artist : string) : option Timestamp :=
  series_min
    (fmap (λ r, played_at (merged_row r))
       (filter (λ r, artist_name (merged_row r) = Some artist) df)).

(** [first_plays.dt.year], read at one artist. *)
Definition discovery_year (df : list DashRow) (artist : string) : option Z :=
  fmap (λ t, dt_year (tz_convert utc_offset t)) (first_play df artist).

(** [df.groupby('artist_name')['year'].min()], read at one artist: the first
    year of the summary metrics. *)
Definition first_listen_year (df : list DashRow) (artist : string) : option Z :=
  series_min (fmap year (filter (λ r, artist_name (merged_row r) = Some artist) df)).

(** The years of [first_plays.dt.year], one for each artist of the frame. *)
Definition discovery_years (df : list DashRow) : list Z :=
  omap (discovery_year df) (series_unique (omap (λ r, artist_name (merged_row r)) df)).

(** [discoveries = first_plays.dt.year.value_counts().sort_index()]: the
    number of artists first heard in each year, by increasing year. *)
Definition discoveries (df : list DashRow) : list (Z * nat) :=
  fmap (λ y, (y, length (filter (λ y', y' = y) (discovery_years df))))
    (merge_sort Z.le (remove_dups (discovery_years df))).

End Discovery.

(** ** Images: [get_track_image], [get_artist_image] and their display *)

Inductive SearchType : Type := TrackSearch | ArtistSearch.

(** The answer of [sp.search(q=..., type=..., limit=1)] as the image getters
    read it: for each item found, the URLs of its images (the album's images
    for a track).  [None] stands for any exception raised by the call or by
    the reading of an ill-formed answer: the bare [except] treats all alike.
    The memoisation of the getters by [st.cache_data] is not modelled. *)
Definition SearchOracle : Type := string → SearchType → option (list (list string)).

Definition first_image_url (found : option (list (list string))) : option string :=
  match found with
  | None => None
  | Some [] => None
  | Some ([] :: _) => None
  | Some ((url :: _) :: _) => Some url
  end.

Definition get_track_image (client : option Spotify) (search : SearchOracle)
    (track_name artist_name : string) : option string :=
  match client with
  | None => None
  | Some _ =>
      first_image_url
        (search ("track:" +:+ track_name +:+ " artist:" +:+ artist_name) TrackSearch)
  end.

Definition get_artist_image (client : option Spotify) (search : SearchOracle)
    (artist_name : string) : option string :=
  match client with
  | None => None
  | Some _ => first_image_url (search ("artist:" +:+ artist_name) ArtistSearch)
  end.

(** What [display_image_with_placeholder] puts on the page. *)
Inductive Widget : Type :=
  | Image (url : string) (width : Z)
  | Placeholder (fallback_emoji : string) (width : Z).

(** [if image_url:] is false for [None] and for the empty string. *)
Definition display_image_with_placeholder (image_url : option string)
    (fallback_emoji : string) (width : Z) : Widget :=
  match image_url with
  | Some (String c rest) => Image (String c rest) width
  | _ => Placeholder fallback_emoji width
  end.

(** ** The authorization script [authorize_spotify.py] *)

(** [str.lower()] on the ASCII letters.  The two strings the script lowers, a
    redirect URI and a typed answer, are taken to be ASCII. *)
Definition ascii_lower (c : Ascii.ascii) : Ascii.ascii :=
  let n := Ascii.nat_of_ascii c in
  if (65 <=? n)%nat && (n <=? 90)%nat then Ascii.ascii_of_nat (n + 32) else c.

Fixpoint lower (s : string) : string :=
  match s with
  | EmptyString => EmptyString
  | String c rest => String (ascii_lower c) (lower rest)
  end.

(** [needle in hay] on strings. *)
Fixpoint str_contains (needle hay : string) : bool :=
  String.prefix needle hay
  || match hay with
     | EmptyString => false
     | String _ rest => str_contains needle rest
     end.

(** [not value] for what [os.getenv] returns: unset or empty. *)
Definition unset (value : option string) : bool :=
  match value with
  | None => true
  | Some EmptyString => true
  | Some _ => false
  end.

(** What the script meets when it runs: whether [.env] exists, whether the
    modules it imports are installed, the three variables of the environment
    once [.env] is loaded, what the user types if asked, and whether
    [sp.current_user()] returns rather than raises. *)
Record AuthWorld : Type := mk_auth_world {
  env_file_exists : bool;
  dotenv_installed : bool;
  SPOTIFY_CLIENT_ID : option string;
  SPOTIFY_CLIENT_SECRET : option string;
  SPOTIFY_REDIRECT_URI : option string;
  typed_answer : string;
  spotipy_installed : bool;
  current_user_returns : bool
}.

(** What a run leaves behind: the exit status, whether the user was asked to
    confirm a [localhost] redirect, and whether the authorization flow was
    started (the call of [sp.current_user()]). *)
Record AuthRun : Type := mk_auth_run {
  auth_exit : Z;
  asked_to_continue : bool;
  flow_started : bool
}.

Definition authorize_spotify (w : AuthWorld) : AuthRun :=
  if negb (env_file_exists w) then mk_auth_run 1 false false
  else if negb (dotenv_installed w) then mk_auth_run 1 false false
  else
    let client_id := SPOTIFY_CLIENT_ID w in
    let client_secret := SPOTIFY_CLIENT_SECRET w in
    let redirect_uri := SPOTIFY_REDIRECT_URI w in
    if unset client_id || bool_decide (client_id = Some "your_client_id_here"%string)
    then mk_auth_run 1 false false
    else if unset client_secret
            || bool_decide (client_secret = Some "your_client_secret_here"%string)
    then mk_auth_run 1 false false
    else if unset redirect_uri then mk_auth_run 1 false false
    else
      let warn := str_contains "localhost" (lower (default EmptyString redirect_uri)) in
      if warn && negb (bool_decide (lower (typed_answer w) = "y"%string))
      then mk_auth_run 0 true false
      else if negb (spotipy_installed w) then mk_auth_run 1 warn false
      else if current_user_returns w then mk_auth_run 0 warn true
      else mk_auth_run 1 warn true.

(** ** Sample data *)

(** 2024-01-01T00:00:00Z *)
Definition T0 : Timestamp := 1704067200000000000.

Definition listen (t : Timestamp) (track artist album source : string) : PlayEvent :=
  mk_event t (Some track) (Some artist) (Some album) (Some 200000) None (Some source)
    None None None.

(** Two rows share their key and differ by the album. *)
Definition sample_historical : DataFrame :=
  [ listen T0 "Intro" "The xx" "xx" "ios";
    listen (T0 - 60000 * one_ms) "Angels" "The xx" "Coexist" "ios";
    listen (T0 - 60000 * one_ms) "Angels" "The xx" "Coexist (Deluxe)" "web" ].

Definition sample_api : DataFrame :=
  [ listen T0 "Islands" "The xx" "xx" "API";
    listen (T0 + one_ms) "Crystalised" "The xx" "xx" "API" ].

Definition sample_state : State :=
  mk_state (Some spotipy_client) (Some sample_historical) (Some sample_api) None None.

Definition export_row (t : Timestamp) (ms : Z) (kind track artist : string) :
    Csv.row string :=
  Csv.mk_row t (Some ms) kind track artist "xx" "spotify:track:0" "ios" "US"
    (Some false) (Some false).

Definition sample_export : list (Csv.row string) :=
  [ export_row (T0 - 60000 * one_ms) 215000 "audio" "Angels" "The xx";
    export_row T0 127000 "audio" "Intro" "The xx" ].

Definition sample_items : list Api.item :=
  [ Api.mk_item (T0 + one_ms)
      (Api.mk_track "Crystalised" [Api.mk_artist "The xx"] (Some (Api.mk_album "xx"))
         201000 "spotify:track:1") ].

Definition sample_world : World := mk_world (Some sample_export) true (λ _, inr sample_items).

(** The token has expired: the call raises. *)
Definition expired_world : World :=
  mk_world (Some sample_export) true (λ _, inl (SpotifyException AuthExpired)).

(** The export is not where it is looked for. *)
Definition missing_world : World := mk_world None true (λ _, inr sample_items).

(** The export holds a single play of ten seconds. *)
Definition skipped_world : World :=
  mk_world (Some [export_row T0 10000 "audio" "Intro" "The xx"]) true (λ _, inr sample_items).

(** The object after a successful merge of the sample tables. *)
Definition sample_merged_state : State :=
  (combine_data stable_sort_values sample_state).1.

(** A merged file with a listen on each side of the turn of 2017 in New York:
    2017-01-01T04:59:59Z is still 2016 there, 2017-01-01T05:00:00Z is 2017. *)
Definition NEW_YEAR_2017_EST : Timestamp := 1483246800 * NS_PER_SECOND.

Definition sample_merged_file : DataFrame :=
  [ listen (NEW_YEAR_2017_EST - NS_PER_SECOND) "Intro" "The xx" "xx" "ios";
    listen NEW_YEAR_2017_EST "Angels" "The xx" "Coexist" "ios" ].

(** * Properties *)

(** ** Boolean-mask selection *)

Section LocMask.
Context {A : Type}.
Implicit Types (f : A → bool) (l : list A).

Lemma loc_mask_fmap f l : loc_mask (f <$> l) l = filter (λ x, f x) l.
Proof.
  induction l as [|x l IH]; [done|].
  cbn [fmap list_fmap loc_mask]. rewrite filter_cons, IH.
  destruct (f x); by rewrite ?decide_True, ?decide_False by (simpl; tauto).
Qed.

Lemma elem_of_loc_mask f l x : x ∈ loc_mask (f <$> l) l ↔ x ∈ l ∧ f x = true.
Proof.
  rewrite loc_mask_fmap, list_elem_of_filter, Is_true_true. tauto.
Qed.

Lemma loc_mask_app f l1 l2 :
  loc_mask (f <$> (l1 ++ l2)) (l1 ++ l2) = loc_mask (f <$> l1) l1 ++ loc_mask (f <$> l2) l2.
Proof. by rewrite !loc_mask_fmap, filter_app. Qed.

Lemma loc_mask_sublist f l : loc_mask (f <$> l) l `sublist_of` l.
Proof. rewrite loc_mask_fmap. apply sublist_filter. Qed.

End LocMask.

(** ** Historical loader *)

Lemma historical_table_app (l1 l2 : list (Csv.row string)) :
  historical_table (l1 ++ l2) = historical_table l1 ++ historical_table l2.
Proof.
  unfold historical_table, read_csv, filter_short_plays, filter_content_type,
    filter_null_tracks.
  by rewrite fmap_app, loc_mask_app, loc_mask_app, fmap_app, loc_mask_app.
Qed.

Lemma historical_table_cons (r : Csv.row string) (l : list (Csv.row string)) :
  historical_table (r :: l) = historical_table [r] ++ historical_table l.
Proof. apply (historical_table_app [r] l). Qed.

(** What the pipeline does to a single row of the file. *)
Lemma historical_table_singleton (r : Csv.row string) :
  historical_table [r] =
    if ge_scalar (Csv.ms_played r) MIN_PLAY_TIME_MS
       && eq_scalar (na_filter (Csv.content_type r)) CONTENT_TYPE_FILTER
       && notna (na_filter (Csv.master_metadata_track_name r))
    then [standardize (read_csv_row r)] else [].
Proof.
  unfold historical_table, read_csv, filter_short_plays, filter_content_type,
    filter_null_tracks. cbn.
  destruct (ge_scalar _ _); cbn; [|done].
  destruct (eq_scalar _ _); cbn; [|done].
  by destruct (notna _).
Qed.

Lemma elem_of_historical_table (file : list (Csv.row string)) (e : PlayEvent) :
  e ∈ historical_table file ↔
  ∃ r, r ∈ file ∧ e = standardize (read_csv_row r)
       ∧ ge_scalar (Csv.ms_played r) MIN_PLAY_TIME_MS = true
       ∧ eq_scalar (na_filter (Csv.content_type r)) CONTENT_TYPE_FILTER = true
       ∧ notna (na_filter (Csv.master_metadata_track_name r)) = true.
Proof.
  induction file as [|r file IH].
  - split; [by intros ?%elem_of_nil | by intros (? & ?%elem_of_nil & _)].
  - rewrite historical_table_cons, elem_of_app, IH, historical_table_singleton.
    split.
    + intros [He | (r' & Hr' & H)].
      * destruct (ge_scalar _ _) eqn:E1; [|by apply elem_of_nil in He].
        destruct (eq_scalar _ _) eqn:E2; [|by apply elem_of_nil in He].
        destruct (notna _) eqn:E3; [|by apply elem_of_nil in He].
        apply list_elem_of_singleton in He. exists r. by rewrite elem_of_cons; auto.
      * exists r'. rewrite elem_of_cons. tauto.
    + intros (r' & [->|Hr']%elem_of_cons & He & E1 & E2 & E3).
      * left. rewrite E1, E2, E3. cbn. by apply list_elem_of_singleton.
      * right. by exists r'.
Qed.

Lemma load_historical_csv_present (w : World) (s : State) (file : list (Csv.row string)) :
  csv_file w = Some file →
  load_historical_csv w s =
    (mk_state (sp s) (Some (historical_table file)) (api_data s) (combined_data s)
       (saved_csv s), inr true).
Proof. intros Hf. unfold load_historical_csv. by rewrite Hf. Qed.

Lemma load_historical_csv_missing (w : World) (s : State) :
  csv_file w = None → load_historical_csv w s = (s, inr false).
Proof. intros Hf. unfold load_historical_csv. by rewrite Hf. Qed.

Lemma loader_output_present (w : World) (file : list (Csv.row string)) :
  csv_file w = Some file → loader_output w = Some (historical_table file).
Proof.
  intros Hf. unfold loader_output. by rewrite (load_historical_csv_present _ _ file).
Qed.

Lemma loader_output_inv (w : World) (out : DataFrame) :
  loader_output w = Some out → ∃ file, csv_file w = Some file ∧ out = historical_table file.
Proof.
  unfold loader_output, load_historical_csv.
  destruct (csv_file w) as [file|]; [|done].
  cbn. intros [= <-]. by exists file.
Qed.

Lemma ge_scalar_true (v : option Z) (c : Z) :
  ge_scalar v c = true ↔ ∃ d, v = Some d ∧ c ≤ d.
Proof.
  destruct v as [d|]; cbn.
  - rewrite bool_decide_eq_true. split; [by exists d | by intros (? & [= ->] & ?)].
  - split; [done | by intros (? & ? & ?)].
Qed.

(** C6. Threshold filter of the Historical Loader: every row of the Loader's
    output comes from a row of the export whose [ms_played] is at least 30000;
    a row of the export with [ms_played] below 30000 (29999 for one) leaves no
    trace in the output, whatever its other fields; and the threshold test
    itself keeps a row with [ms_played] = 30000. *)
Theorem loader_threshold_filter :
  (∀ (w : World) (out : DataFrame) (e : PlayEvent),
      loader_output w = Some out → e ∈ out →
      ∃ (file : list (Csv.row string)) (r : Csv.row string) (d : Z),
        csv_file w = Some file ∧ r ∈ file ∧ e = standardize (read_csv_row r)
        ∧ Csv.ms_played r = Some d ∧ duration_ms e = Some d ∧ 30000 ≤ d)
  ∧ (∀ (oauth : bool) (api : Z → Exn + list Api.item)
       (l1 l2 : list (Csv.row string)) (r : Csv.row string) (d : Z),
      Csv.ms_played r = Some d → d < 30000 →
      loader_output (mk_world (Some (l1 ++ r :: l2)) oauth api)
      = loader_output (mk_world (Some (l1 ++ l2)) oauth api))
  ∧ (∀ r : Csv.row (option string),
      (Csv.ms_played r = Some 29999 → filter_short_plays [r] = [])
      ∧ (Csv.ms_played r = Some 30000 → filter_short_plays [r] = [r])).
Proof.
  split; [|split].
  - intros w out e (file & Hf & ->)%loader_output_inv He.
    apply elem_of_historical_table in He as (r & Hr & -> & (d & Hd & Hle)%ge_scalar_true & _).
    exists file, r, d. unfold MIN_PLAY_TIME_MS in Hle. by rewrite Hd.
  - intros oauth api l1 l2 r d Hd Hlt.
    rewrite (loader_output_present _ (l1 ++ r :: l2)), (loader_output_present _ (l1 ++ l2))
      by done.
    f_equal. rewrite !historical_table_app, (historical_table_cons r l2).
    rewrite historical_table_singleton, Hd. cbn.
    by rewrite bool_decide_eq_false_2 by (unfold MIN_PLAY_TIME_MS; lia).
  - intros r. split; intros Hd; unfold filter_short_plays; cbn; by rewrite Hd.
Qed.

(** C7. Null-track drop: a row of the export whose track name is missing after
    normalisation (the cell is empty, or another missing-value marker) leaves
    no trace in the Loader's output, whatever its other fields; and no row of
    the output has a missing or empty track name. *)
Theorem loader_null_track_drop :
  (∀ (oauth : bool) (api : Z → Exn + list Api.item)
      (l1 l2 : list (Csv.row string)) (r : Csv.row string),
      track_name (standardize (read_csv_row r)) = None
      ∨ Csv.master_metadata_track_name r = EmptyString →
      loader_output (mk_world (Some (l1 ++ r :: l2)) oauth api)
      = loader_output (mk_world (Some (l1 ++ l2)) oauth api))
  ∧ (∀ (w : World) (out : DataFrame) (e : PlayEvent),
      loader_output w = Some out → e ∈ out →
      ∃ name : string, track_name e = Some name ∧ name ≠ EmptyString).
Proof.
  split.
  - intros oauth api l1 l2 r Hnull.
    rewrite (loader_output_present _ (l1 ++ r :: l2)), (loader_output_present _ (l1 ++ l2))
      by done.
    f_equal. rewrite !historical_table_app, (historical_table_cons r l2).
    rewrite historical_table_singleton.
    assert (na_filter (Csv.master_metadata_track_name r) = None) as ->.
    { destruct Hnull as [H | ->]; [exact H | done]. }
    cbn. by rewrite !andb_false_r.
  - intros w out e (file & Hf & ->)%loader_output_inv He.
    apply elem_of_historical_table in He as (r & Hr & -> & _ & _ & Hna).
    cbn. unfold na_filter in *.
    destruct (bool_decide _) eqn:E; [done|].
    exists (Csv.master_metadata_track_name r). split; [done|].
    intros Heq. rewrite Heq in E. done.
Qed.

(** ** Column maximum and the cutoff *)

Lemma foldl_max_spec (col : list Timestamp) (t : Timestamp) :
  foldl Z.max t col ∈ t :: col ∧ ∀ x, x ∈ t :: col → x ≤ foldl Z.max t col.
Proof.
  revert t. induction col as [|y col IH]; intros t; cbn.
  - split; [by left|]. intros x ->%list_elem_of_singleton. lia.
  - destruct (IH (Z.max t y)) as [Hin Hub]. split.
    + apply elem_of_cons in Hin as [Heq | Hin].
      * rewrite Heq. destruct (Z.max_spec t y) as [[_ ->] | [_ ->]].
        -- right. by left.
        -- by left.
      * do 2 right. exact Hin.
    + intros x [-> | [-> | Hx]%elem_of_cons]%elem_of_cons.
      * pose proof (Hub (Z.max t y) ltac:(by left)). lia.
      * pose proof (Hub (Z.max t y) ltac:(by left)). lia.
      * apply Hub. by right.
Qed.

Lemma series_max_Some (col : list Timestamp) (T : Timestamp) :
  series_max col = Some T → T ∈ col ∧ ∀ x, x ∈ col → x ≤ T.
Proof.
  destruct col as [|t col]; [done|]. cbn. intros [= <-]. apply foldl_max_spec.
Qed.

Lemma series_max_is_Some (col : list Timestamp) : col ≠ [] → is_Some (series_max col).
Proof. destruct col; [done | by eexists]. Qed.

Lemma series_max_played_at (df : DataFrame) (T : Timestamp) :
  series_max (played_at <$> df) = Some T →
  (∃ h, h ∈ df ∧ played_at h = T) ∧ ∀ h, h ∈ df → played_at h ≤ T.
Proof.
  intros [Hin Hub]%series_max_Some. split.
  - apply list_elem_of_fmap in Hin as (h & -> & Hh). by exists h.
  - intros h Hh. apply Hub. by apply list_elem_of_fmap_2.
Qed.

Lemma elem_of_new_api_data (historical api : DataFrame) (r : PlayEvent) :
  r ∈ new_api_data historical api ↔
  r ∈ api ∧ ∃ T, series_max (played_at <$> historical) = Some T ∧ T < played_at r.
Proof.
  unfold new_api_data. rewrite elem_of_loc_mask.
  destruct (series_max _) as [T|]; cbn.
  - rewrite bool_decide_eq_true. split.
    + intros [? ?]. split; [done|]. by exists T.
    + by intros [? (? & [= <-] & ?)].
  - split; [by intros [_ ?] | by intros [_ (? & ? & _)]].
Qed.

Lemma new_api_data_empty_historical (api : DataFrame) : new_api_data [] api = [].
Proof.
  unfold new_api_data. induction api as [|r api IH]; [done|]. exact IH.
Qed.

(** Both tests on lengths in [combine_data] only skip a concatenation that
    would have added nothing. *)
Lemma concatenated_Some (historical api : DataFrame) :
  concatenated historical (Some api) = historical ++ new_api_data historical api.
Proof.
  unfold concatenated. case_bool_decide as Hlen.
  - case_bool_decide as Hnew; [done|].
    destruct (new_api_data historical api); [by rewrite app_nil_r | cbn in Hnew; lia].
  - destruct api; [|cbn in Hlen; lia]. by rewrite app_nil_r.
Qed.

(** The table that [combine_data] sorts, when the latest historical
    [played_at] is [T]: the historical table followed by the API rows whose
    [played_at] is strictly greater than [T], in their order. *)
Lemma new_api_data_cutoff (historical api : DataFrame) (T : Timestamp) :
  series_max (played_at <$> historical) = Some T →
  new_api_data historical api = filter (λ r, T < played_at r) api.
Proof.
  intros HT. unfold new_api_data. rewrite HT, loc_mask_fmap.
  apply list_filter_iff. intros r. cbn. apply bool_decide_spec.
Qed.

Lemma concatenated_cutoff (historical api : DataFrame) (T : Timestamp) :
  series_max (played_at <$> historical) = Some T →
  concatenated historical (Some api) = historical ++ filter (λ r, T < played_at r) api.
Proof. intros HT. by rewrite concatenated_Some, (new_api_data_cutoff _ _ T). Qed.

(** ** Duplicate removal *)

Lemma dedup_from_cons (seen : list dedup_key) (r : PlayEvent) (df : DataFrame) :
  dedup_from seen (r :: df) =
    if decide (subset_key r ∈ seen) then dedup_from (subset_key r :: seen) df
    else r :: dedup_from (subset_key r :: seen) df.
Proof.
  unfold dedup_from. cbn [duplicated_from fmap list_fmap loc_mask].
  case_decide.
  - by rewrite bool_decide_eq_true_2.
  - by rewrite bool_decide_eq_false_2.
Qed.

Lemma dedup_from_sublist (seen : list dedup_key) (df : DataFrame) :
  dedup_from seen df `sublist_of` df.
Proof.
  revert seen. induction df as [|r df IH]; intros seen; [done|].
  rewrite dedup_from_cons. case_decide.
  - by apply sublist_cons.
  - by apply sublist_skip.
Qed.

Lemma dedup_from_fresh (seen : list dedup_key) (df : DataFrame) (x : PlayEvent) :
  x ∈ dedup_from seen df → subset_key x ∉ seen.
Proof.
  revert seen. induction df as [|r df IH]; intros seen; [by intros ?%elem_of_nil|].
  rewrite dedup_from_cons. case_decide as Hseen.
  - intros Hx%IH. by apply not_elem_of_cons in Hx as [_ ?].
  - intros [-> | Hx%IH]%elem_of_cons; [done|].
    by apply not_elem_of_cons in Hx as [_ ?].
Qed.

Lemma dedup_from_NoDup (seen : list dedup_key) (df : DataFrame) :
  NoDup (subset_key <$> dedup_from seen df).
Proof.
  revert seen. induction df as [|r df IH]; intros seen; [constructor|].
  rewrite dedup_from_cons. case_decide as Hseen; [apply IH|].
  rewrite fmap_cons. apply NoDup_cons. split; [|apply IH].
  intros (x & Hkey & Hx%dedup_from_fresh)%list_elem_of_fmap.
  apply Hx. rewrite Hkey. by left.
Qed.

(** The row kept for a key is the first row of the table with that key. *)
Lemma dedup_from_first (seen : list dedup_key) (df : DataFrame) (x : PlayEvent) :
  x ∈ dedup_from seen df →
  ∃ i, list_find (λ y, subset_key y = subset_key x) df = Some (i, x).
Proof.
  revert seen. induction df as [|r df IH]; intros seen; [by intros ?%elem_of_nil|].
  rewrite dedup_from_cons. intros Hx.
  assert (x = r ∨ x ∈ dedup_from (subset_key r :: seen) df) as [-> | Hx'].
  { case_decide; [by right|]. by apply elem_of_cons in Hx. }
  - exists 0%nat. cbn. by rewrite decide_True.
  - destruct (IH _ Hx') as [i Hi]. exists (S i). cbn.
    rewrite decide_False.
    + by rewrite Hi.
    + intros Heq. apply dedup_from_fresh in Hx'. apply Hx'. rewrite <- Heq. by left.
Qed.

(** Every key that was not met before keeps a row. *)
Lemma dedup_from_complete (seen : list dedup_key) (df : DataFrame) (x : PlayEvent) :
  x ∈ df → subset_key x ∉ seen →
  ∃ y, y ∈ dedup_from seen df ∧ subset_key y = subset_key x.
Proof.
  revert seen. induction df as [|r df IH]; intros seen; [by intros ?%elem_of_nil|].
  rewrite dedup_from_cons. intros [-> | Hx]%elem_of_cons Hfresh.
  - rewrite decide_False by done. exists r. split; [by left | done].
  - destruct (decide (subset_key x = subset_key r)) as [Heq | Hne].
    + rewrite decide_False by (by rewrite <- Heq).
      exists r. split; [by left | done].
    + destruct (IH (subset_key r :: seen) Hx) as (y & Hy & Hkey).
      { by apply not_elem_of_cons. }
      exists y. split; [|done]. case_decide; [done | by right].
Qed.

Lemma drop_duplicates_sublist (df : DataFrame) : drop_duplicates df `sublist_of` df.
Proof. apply dedup_from_sublist. Qed.

Lemma drop_duplicates_NoDup (df : DataFrame) : NoDup (subset_key <$> drop_duplicates df).
Proof. apply dedup_from_NoDup. Qed.

Lemma drop_duplicates_first (df : DataFrame) (x : PlayEvent) :
  x ∈ drop_duplicates df →
  ∃ i, list_find (λ y, subset_key y = subset_key x) df = Some (i, x).
Proof. apply dedup_from_first. Qed.

Lemma drop_duplicates_complete (df : DataFrame) (x : PlayEvent) :
  x ∈ df → ∃ y, y ∈ drop_duplicates df ∧ subset_key y = subset_key x.
Proof. intros Hx. apply dedup_from_complete; [done | apply not_elem_of_nil]. Qed.

(** ** Sorted tables *)

Lemma StronglySorted_sublist {A : Type} (R : relation A) (k l : list A) :
  k `sublist_of` l → StronglySorted R l → StronglySorted R k.
Proof.
  induction 1 as [|x k l Hkl IH|x k l Hkl IH]; intros Hs; [done|..].
  - apply StronglySorted_inv in Hs as [Hs Hall]. constructor; [by apply IH|].
    apply Forall_forall. intros y Hy. rewrite Forall_forall in Hall.
    apply Hall. by eapply elem_of_sublist.
  - apply StronglySorted_inv in Hs as [Hs _]. by apply IH.
Qed.

Lemma Sorted_adjacent {A : Type} (R : relation A) (l : list A) (i : nat) (x y : A) :
  Sorted R l → l !! i = Some x → l !! S i = Some y → R x y.
Proof.
  intros Hs. revert i. induction Hs as [|a l Hs IH Hhd]; intros i; [done|].
  destruct i as [|i]; cbn.
  - intros [= ->]. destruct l as [|b l]; [done|]. cbn. intros [= ->].
    by apply HdRel_inv in Hhd.
  - apply IH.
Qed.

Lemma stable_sort_values_perm (df : DataFrame) : stable_sort_values df ≡ₚ df.
Proof. apply merge_sort_Permutation. Qed.

Lemma stable_sort_values_sorted (df : DataFrame) :
  Sorted played_at_le (stable_sort_values df).
Proof. apply (Sorted_merge_sort played_at_le). Qed.

(** ** The fetcher *)

Lemma fetch_recent_api_data_unfold (w : World) (limit : Z) (s : State) :
  fetch_recent_api_data w limit s =
    match sp s with
    | None => (s, inr false)
    | Some _ =>
        match recently_played w limit with
        | inl _ => (s, inr false)
        | inr [] =>
            (mk_state (sp s) (historical_data s) (Some []) (combined_data s) (saved_csv s),
             inr false)
        | inr items =>
            (mk_state (sp s) (historical_data s) (Some (api_row <$> items))
               (combined_data s) (saved_csv s), inr true)
        end
    end.
Proof.
  unfold fetch_recent_api_data, try_except, current_user_recently_played.
  cbv [mbind M_bind get]. destruct s as [[c|] h a cd sv]; [|reflexivity].
  cbn [sp]. destruct (recently_played w limit) as [e | [|item items]]; reflexivity.
Qed.

(** The fetcher never lets an exception escape, and touches [api_data] only. *)
Lemma fetch_recent_api_data_caught (w : World) (limit : Z) (s : State) :
  ∃ (api : option DataFrame) (ok : bool),
    fetch_recent_api_data w limit s =
      (mk_state (sp s) (historical_data s) api (combined_data s) (saved_csv s), inr ok).
Proof.
  rewrite fetch_recent_api_data_unfold. destruct s as [c h a cd sv]; cbn.
  destruct c; [|by eexists _, _].
  destruct (recently_played w limit) as [e | [|item items]]; by eexists _, _.
Qed.

Lemma fetch_after_load (w : World) (h : option DataFrame) :
  ∃ ok : bool,
    fetch_recent_api_data w 50 (mk_state (_init_spotify_client w) h None None None) =
      (mk_state (_init_spotify_client w) h (fetched_api w) None None, inr ok).
Proof.
  unfold fetched_api, CombinedSpotifyAnalytics. rewrite !fetch_recent_api_data_unfold. cbn.
  destruct (_init_spotify_client w); [|by eexists].
  destruct (recently_played w 50) as [e | [|item items]]; by eexists.
Qed.

(** When the fetch fails or brings nothing, the Recent table is absent or
    empty. *)
Lemma fetched_api_failed (w : World) :
  oauth_ok w = false ∨ (∃ e, recently_played w 50 = inl e) ∨ recently_played w 50 = inr [] →
  fetched_api w = None ∨ fetched_api w = Some [].
Proof.
  unfold fetched_api, CombinedSpotifyAnalytics. rewrite fetch_recent_api_data_unfold. cbn.
  unfold _init_spotify_client.
  intros [-> | [[e ->] | ->]]; [by left | ..]; destruct (oauth_ok w); auto.
Qed.

(** ** The merge *)

Section MergeProperties.

Variable sort_values : DataFrame → DataFrame.
Hypothesis sort_values_perm : ∀ df, sort_values df ≡ₚ df.
Hypothesis sort_values_sorted : ∀ df, Sorted played_at_le (sort_values df).

Lemma combine_data_unfold (s : State) :
  combine_data sort_values s =
    match historical_data s with
    | None => (s, inr false)
    | Some historical =>
        (mk_state (sp s) (Some historical) (api_data s)
           (Some (merged sort_values historical (api_data s))) (saved_csv s), inr true)
    end.
Proof.
  unfold combine_data. cbv [mbind M_bind get]. destruct s as [c [h|] a cd sv]; reflexivity.
Qed.

Lemma combine_data_success (s s' : State) :
  combine_data sort_values s = (s', inr true) →
  ∃ historical,
    historical_data s = Some historical
    ∧ combined_data s' = Some (merged sort_values historical (api_data s)).
Proof.
  rewrite combine_data_unfold. destruct (historical_data s) as [h|]; [|done].
  intros [= <-]. by exists h.
Qed.

Lemma concatenated_cases (historical : DataFrame) (api : option DataFrame) :
  concatenated historical api = historical ++ from_option (new_api_data historical) [] api.
Proof.
  destruct api as [api|]; cbn [from_option].
  - apply concatenated_Some.
  - by rewrite app_nil_r.
Qed.

Lemma sort_values_nil : sort_values [] = [].
Proof. by apply Permutation_nil_r. Qed.

Lemma merged_empty_historical (api : option DataFrame) : merged sort_values [] api = [].
Proof.
  unfold merged. rewrite concatenated_cases.
  destruct api as [api|]; cbn [from_option app];
    by rewrite ?new_api_data_empty_historical, sort_values_nil.
Qed.

Lemma merged_absent_api (historical : DataFrame) (api : option DataFrame) :
  api = None ∨ api = Some [] →
  merged sort_values historical api = drop_duplicates (sort_values historical).
Proof. by intros [-> | ->]. Qed.

Lemma elem_of_merged (historical : DataFrame) (api : option DataFrame) (r : PlayEvent) :
  r ∈ merged sort_values historical api → r ∈ concatenated historical api.
Proof.
  unfold merged. intros Hr.
  pose proof (elem_of_sublist _ _ _ Hr (drop_duplicates_sublist _)) as Hr'.
  by rewrite sort_values_perm in Hr'.
Qed.

Lemma merged_nonempty (historical : DataFrame) (api : option DataFrame) :
  historical ≠ [] → merged sort_values historical api ≠ [].
Proof.
  destruct historical as [|h historical]; [done|]. intros _ Hnil.
  destruct (drop_duplicates_complete (sort_values (concatenated (h :: historical) api)) h)
    as (y & Hy & _).
  - rewrite sort_values_perm, concatenated_cases. by left.
  - unfold merged in Hnil. rewrite Hnil in Hy. by apply elem_of_nil in Hy.
Qed.

(** C1 as the code has it: [combine_data] fails, by returning [False] and
    leaving the object as it was, exactly when no historical table was loaded,
    whatever the Recent table is; it never raises.  Every loaded historical
    table is accepted, one without rows included: the merge then succeeds and
    stores a merged table, which is empty when the historical table is, so
    that no Recent row is taken. *)
Theorem combine_data_historical_guard (s : State) :
  (historical_data s = None → combine_data sort_values s = (s, inr false))
  ∧ ((combine_data sort_values s).2 = inr false ↔ historical_data s = None)
  ∧ (∀ e, (combine_data sort_values s).2 ≠ inl e)
  ∧ (∀ historical, historical_data s = Some historical →
      ∃ out : DataFrame,
        combine_data sort_values s
        = (mk_state (sp s) (Some historical) (api_data s) (Some out) (saved_csv s),
           inr true)
        ∧ (historical = [] → out = [])).
Proof.
  rewrite combine_data_unfold. destruct (historical_data s) as [h|]; cbn [snd].
  - split_and!; [done | done | done |].
    intros historical [= <-]. eexists. split; [reflexivity|].
    intros ->. apply merged_empty_historical.
  - split_and!; done.
Qed.

(** C2. Merge cutoff, strict inequality: with a historical table that is not
    empty and whose latest [played_at] is [T], [combine_data] succeeds and the
    table it stores is the sorted, deduplicated concatenation of the historical
    table with exactly the API rows whose [played_at] is strictly greater than
    [T].  Every stored row is a historical row or such an API row; every API
    row newer than [T], one played a millisecond after [T] for one, has its
    key in the stored table, on a row from the API; an API row played at [T]
    is stored only if it is a historical row as well, and when no historical
    row has its key, no stored row has. *)
Theorem merge_cutoff_strict (s : State) (historical api : DataFrame) (T : Timestamp) :
  historical_data s = Some historical →
  api_data s = Some api →
  historical ≠ [] →
  series_max (played_at <$> historical) = Some T →
  ((∃ h, h ∈ historical ∧ played_at h = T) ∧ ∀ h, h ∈ historical → played_at h ≤ T)
  ∧ ∃ out : DataFrame,
      combine_data sort_values s
      = (mk_state (sp s) (Some historical) (Some api) (Some out) (saved_csv s), inr true)
      ∧ out = drop_duplicates
                (sort_values (historical ++ filter (λ r, T < played_at r) api))
      ∧ (∀ r', r' ∈ out → r' ∈ historical ∨ (r' ∈ api ∧ T < played_at r'))
      ∧ (∀ r, r ∈ api → T < played_at r →
           ∃ r', r' ∈ out ∧ r' ∈ api ∧ subset_key r' = subset_key r)
      ∧ (∀ r, r ∈ api → subset_key r ∉ subset_key <$> historical →
           (subset_key r ∈ subset_key <$> out ↔ T < played_at r))
      ∧ (∀ r, r ∈ api → played_at r = T →
           (r ∈ out → r ∈ historical)
           ∧ (subset_key r ∉ subset_key <$> historical →
              subset_key r ∉ subset_key <$> out))
      ∧ (∀ r, r ∈ api → played_at r = T + one_ms →
           ∃ r', r' ∈ out ∧ r' ∈ api ∧ subset_key r' = subset_key r
                 ∧ played_at r' = T + one_ms).
Proof.
  intros Hh Ha _ HT. split; [by apply series_max_played_at|].
  pose proof (series_max_played_at _ _ HT) as [_ Hub].
  set (out := drop_duplicates
                (sort_values (historical ++ filter (λ r, T < played_at r) api))).
  assert (∀ r', r' ∈ out → r' ∈ historical ∨ (r' ∈ api ∧ T < played_at r')) as Hfrom.
  { intros r' Hr'.
    pose proof (elem_of_sublist _ _ _ Hr' (drop_duplicates_sublist _)) as Hin.
    rewrite sort_values_perm in Hin.
    apply elem_of_app in Hin as [? | [? ?]%list_elem_of_filter]; auto. }
  assert (∀ r, r ∈ api → T < played_at r →
            ∃ r', r' ∈ out ∧ r' ∈ api ∧ subset_key r' = subset_key r) as Hnewer.
  { intros r Hr Hlt.
    destruct (drop_duplicates_complete
                (sort_values (historical ++ filter (λ r, T < played_at r) api)) r)
      as (r' & Hr' & Hkey).
    { rewrite sort_values_perm. apply elem_of_app. right. by apply list_elem_of_filter. }
    exists r'. split; [done|]. split; [|done].
    assert (played_at r' = played_at r) as Hsame by (by injection Hkey).
    destruct (Hfrom r' Hr') as [Hhist | [? _]]; [|done].
    specialize (Hub r' Hhist). lia. }
  assert (∀ r, r ∈ api → subset_key r ∉ subset_key <$> historical →
            (subset_key r ∈ subset_key <$> out ↔ T < played_at r)) as Hiff.
  { intros r Hr Hfresh. split.
    - intros (r' & Hkey & Hr')%list_elem_of_fmap.
      destruct (Hfrom r' Hr') as [Hhist | [_ Hlt]].
      + exfalso. apply Hfresh. rewrite Hkey. by apply list_elem_of_fmap_2.
      + assert (played_at r' = played_at r) as <- by (by injection Hkey). done.
    - intros Hlt. destruct (Hnewer r Hr Hlt) as (r' & Hr' & _ & <-).
      by apply list_elem_of_fmap_2. }
  exists out. split_and!.
  - rewrite combine_data_unfold, Hh, Ha. unfold merged.
    by rewrite (concatenated_cutoff historical api T HT).
  - done.
  - exact Hfrom.
  - exact Hnewer.
  - exact Hiff.
  - intros r Hr HrT. split.
    + intros Hout. destruct (Hfrom r Hout) as [? | [_ ?]]; [done | lia].
    + intros Hfresh Hin. apply (Hiff r Hr Hfresh) in Hin. lia.
  - intros r Hr HrT. destruct (Hnewer r Hr) as (r' & Hr' & Hapi & Hkey).
    { unfold one_ms in HrT. lia. }
    exists r'. split_and!; [done | done | done |].
    rewrite <- HrT. by injection Hkey.
Qed.

(** C3. Dedup invariant: when [combine_data] succeeds, no two rows of the
    merged table share their [(played_at, track_name, artist_name)]; for every
    row of the sorted table before deduplication, the one row of the merged
    table with its key is the first row of the sorted table with that key; no
    API row that was taken shares its timestamp with a historical row, and the
    row kept for the key of a historical row is a historical row. *)
Theorem merged_dedup_invariant (s s' : State) :
  combine_data sort_values s = (s', inr true) →
  ∃ historical out : DataFrame,
    historical_data s = Some historical
    ∧ combined_data s' = Some out
    ∧ NoDup (subset_key <$> out)
    ∧ (∀ r, r ∈ sort_values (concatenated historical (api_data s)) →
        ∃ (i : nat) (r' : PlayEvent),
          list_find (λ x, subset_key x = subset_key r)
            (sort_values (concatenated historical (api_data s))) = Some (i, r')
          ∧ r' ∈ out
          ∧ ∀ r'', r'' ∈ out → subset_key r'' = subset_key r → r'' = r')
    ∧ (∀ h r, h ∈ historical →
        r ∈ from_option (new_api_data historical) [] (api_data s) →
        played_at h < played_at r)
    ∧ (∀ h r', h ∈ historical → r' ∈ out → subset_key r' = subset_key h →
        r' ∈ historical ∧ r' ∉ from_option (new_api_data historical) [] (api_data s)).
Proof.
  intros (historical & Hh & Hout)%combine_data_success.
  exists historical, (merged sort_values historical (api_data s)).
  set (pre := sort_values (concatenated historical (api_data s))).
  assert (∀ h r, h ∈ historical →
            r ∈ from_option (new_api_data historical) [] (api_data s) →
            played_at h < played_at r) as Hnewer.
  { intros h r Hhin Hr. destruct (api_data s) as [api|]; cbn in Hr.
    - apply elem_of_new_api_data in Hr as (_ & T & HT & Hlt).
      apply series_max_played_at in HT as [_ Hub]. specialize (Hub h Hhin). lia.
    - by apply elem_of_nil in Hr. }
  assert (∀ x, x ∈ merged sort_values historical (api_data s) →
            ∃ i, list_find (λ y, subset_key y = subset_key x) pre = Some (i, x)) as Hfirst.
  { intros x Hx. by apply drop_duplicates_first. }
  split_and!; [done | done | apply drop_duplicates_NoDup | | exact Hnewer | ].
  - intros r Hr.
    destruct (drop_duplicates_complete pre r Hr) as (r' & Hr' & Hkey).
    destruct (Hfirst r' Hr') as [i Hi]. exists i, r'. split_and!.
    + rewrite <- Hi. apply list_find_ext. intros x. by rewrite Hkey.
    + exact Hr'.
    + intros r'' Hr'' Hkey''. destruct (Hfirst r'' Hr'') as [j Hj].
      rewrite (list_find_ext _ (λ x, subset_key x = subset_key r')) in Hj.
      * rewrite Hi in Hj. by injection Hj.
      * intros x. by rewrite Hkey'', Hkey.
  - intros h r' Hhin Hr' Hkey.
    assert (played_at r' = played_at h) as Hsame by (by injection Hkey).
    assert (r' ∉ from_option (new_api_data historical) [] (api_data s)) as Hnot.
    { intros Hnew. specialize (Hnewer h r' Hhin Hnew). lia. }
    split; [|done].
    apply elem_of_merged in Hr'. rewrite concatenated_cases in Hr'.
    by apply elem_of_app in Hr' as [? | ?].
Qed.

(** C4. Sort invariant: when [combine_data] succeeds, the merged table is
    ascending in [played_at]: each row is played no later than the next. *)
Theorem merged_sort_invariant (s s' : State) :
  combine_data sort_values s = (s', inr true) →
  ∃ out : DataFrame,
    combined_data s' = Some out
    ∧ Sorted played_at_le out
    ∧ ∀ (i : nat) (r1 r2 : PlayEvent),
        out !! i = Some r1 → out !! S i = Some r2 → played_at r1 ≤ played_at r2.
Proof.
  intros (historical & Hh & Hout)%combine_data_success.
  exists (merged sort_values historical (api_data s)).
  assert (Sorted played_at_le (merged sort_values historical (api_data s))) as Hsorted.
  { apply StronglySorted_Sorted.
    apply (StronglySorted_sublist _ _ _ (drop_duplicates_sublist _)).
    apply Sorted_StronglySorted; [apply _ | apply sort_values_sorted]. }
  split_and!; [done | done |].
  intros i r1 r2 H1 H2. exact (Sorted_adjacent played_at_le _ i r1 r2 Hsorted H1 H2).
Qed.

Lemma main_missing (w : World) :
  csv_file w = None → main sort_values w = mk_outcome 0 None.
Proof.
  intros Hf. unfold main, main_body. cbv [mbind M_bind].
  by rewrite load_historical_csv_missing.
Qed.

Lemma main_present (w : World) (file : list (Csv.row string)) :
  csv_file w = Some file →
  main sort_values w =
    match merged sort_values (historical_table file) (fetched_api w) with
    | [] => mk_outcome 1 None
    | out => mk_outcome 0 (Some out)
    end.
Proof.
  intros Hf. unfold main, main_body. cbv [mbind M_bind].
  rewrite (load_historical_csv_present _ _ file Hf). cbn [negb].
  unfold CombinedSpotifyAnalytics. cbn [sp api_data combined_data saved_csv].
  destruct (fetch_after_load w (Some (historical_table file))) as [ok ->].
  rewrite combine_data_unfold. cbn [historical_data api_data sp saved_csv negb].
  destruct (merged _ _ _) as [|r out]; reflexivity.
Qed.

(** C5. Graceful API degradation: with an export that yields at least one
    listen, when the API client cannot be built, or the "recently played" call
    raises, or it returns no item, the fetcher returns [False] instead of
    raising, [combine_data] still succeeds, and the run ends normally having
    written the historical table alone, sorted and deduplicated. *)
Theorem graceful_api_degradation (w : World) (file : list (Csv.row string)) :
  csv_file w = Some file →
  historical_table file ≠ [] →
  oauth_ok w = false ∨ (∃ e, recently_played w 50 = inl e) ∨ recently_played w 50 = inr [] →
  let historical := historical_table file in
  let s1 := (load_historical_csv w (CombinedSpotifyAnalytics w)).1 in
  ∃ s2 s3 : State,
    fetch_recent_api_data w 50 s1 = (s2, inr false)
    ∧ historical_data s2 = Some historical
    ∧ combine_data sort_values s2 = (s3, inr true)
    ∧ combined_data s3 = Some (drop_duplicates (sort_values historical))
    ∧ merged sort_values historical None = drop_duplicates (sort_values historical)
    ∧ main sort_values w = mk_outcome 0 (Some (drop_duplicates (sort_values historical))).
Proof.
  intros Hf Hne Hfail historical s1.
  pose proof (fetched_api_failed w Hfail) as Hapi.
  assert (s1 = mk_state (_init_spotify_client w) (Some historical) None None None) as Hs1.
  { unfold s1. by rewrite (load_historical_csv_present _ _ file Hf). }
  assert (∃ a, (a = None ∨ a = Some []) ∧
            fetch_recent_api_data w 50 s1 =
              (mk_state (_init_spotify_client w) (Some historical) a None None, inr false))
    as (a & Ha & Hfetch).
  { rewrite Hs1, fetch_recent_api_data_unfold. cbn [sp historical_data combined_data saved_csv].
    unfold _init_spotify_client.
    destruct Hfail as [-> | [[e ->] | ->]]; [by exists None; auto | ..];
      destruct (oauth_ok w); eauto. }
  eexists _, _. split_and!.
  - exact Hfetch.
  - done.
  - rewrite combine_data_unfold. cbn [historical_data api_data sp saved_csv]. done.
  - cbn [combined_data]. by rewrite merged_absent_api.
  - done.
  - rewrite (main_present w file Hf), (merged_absent_api _ _ Hapi).
    pose proof (merged_nonempty historical None Hne) as Hm.
    rewrite (merged_absent_api historical None) in Hm by auto.
    fold historical. by destruct (drop_duplicates (sort_values historical)).
Qed.

(** C8 as the code has it: [main] returns normally, so that the exit status is
    zero, when the historical export is missing, and nothing is written then;
    the exit status is zero as well, and the merged table is written, when the
    export is there and yields at least one listen. *)
Theorem main_exit_status (w : World) :
  (csv_file w = None → main sort_values w = mk_outcome 0 None)
  ∧ (∀ file, csv_file w = Some file → historical_table file ≠ [] →
      main sort_values w =
        mk_outcome 0 (Some (merged sort_values (historical_table file) (fetched_api w)))).
Proof.
  split; [apply main_missing|].
  intros file Hf Hne. rewrite (main_present w file Hf).
  pose proof (merged_nonempty (historical_table file) (fetched_api w) Hne).
  by destruct (merged _ _ _).
Qed.

End MergeProperties.

(** ** Dashboard *)

(** C9. Season labelling: on the calendar months 1..12 the label is Winter
    exactly for 12, 1, 2, Spring exactly for 3, 4, 5, Summer exactly for
    6, 7, 8 and Fall exactly for 9, 10, 11; the four labels are distinct, so
    each month has one season and the four groups do not overlap. *)
Theorem season_labeling :
  (∀ m : Z, 1 ≤ m ≤ 12 →
      (get_season m = "Winter"%string ↔ m ∈ [12; 1; 2])
      ∧ (get_season m = "Spring"%string ↔ m ∈ [3; 4; 5])
      ∧ (get_season m = "Summer"%string ↔ m ∈ [6; 7; 8])
      ∧ (get_season m = "Fall"%string ↔ m ∈ [9; 10; 11])
      ∧ get_season m ∈ season_order)
  ∧ NoDup season_order
  ∧ get_season 1 = "Winter"%string
  ∧ get_season 3 = "Spring"%string
  ∧ get_season 6 = "Summer"%string
  ∧ get_season 12 = "Winter"%string.
Proof.
  split_and!; [| apply (bool_decide_unpack _); by vm_compute | done..].
  intros m Hm.
  assert (m = 1 ∨ m = 2 ∨ m = 3 ∨ m = 4 ∨ m = 5 ∨ m = 6 ∨ m = 7 ∨ m = 8 ∨ m = 9
          ∨ m = 10 ∨ m = 11 ∨ m = 12) as Hcases by lia.
  repeat (destruct Hcases as [-> | Hcases]); try subst m;
    apply (bool_decide_unpack _); by vm_compute.
Qed.

Section DashboardProperties.

Variable utc_offset : Timestamp → Z.

Lemma load_data_app (l1 l2 : DataFrame) :
  load_data utc_offset (l1 ++ l2) = load_data utc_offset l1 ++ load_data utc_offset l2.
Proof. unfold load_data. by rewrite fmap_app, loc_mask_app, fmap_app. Qed.

Lemma load_data_singleton (r : PlayEvent) :
  load_data utc_offset [r] =
    let local := tz_convert utc_offset (played_at r) in
    if bool_decide (2017 ≤ dt_year local)
    then [mk_dash r local (dt_year local) (dt_month local) (dt_hour local)
            (dt_dayofweek local) (dt_day_name local) (dt_date local)]
    else [].
Proof. unfold load_data. cbn. by case_bool_decide. Qed.

Lemma load_data_cons (r : PlayEvent) (l : DataFrame) :
  load_data utc_offset (r :: l) = load_data utc_offset [r] ++ load_data utc_offset l.
Proof. apply (load_data_app [r] l). Qed.

Lemma load_data_rows (file : DataFrame) :
  merged_row <$> load_data utc_offset file =
    filter (λ r, 2017 ≤ dt_year (tz_convert utc_offset (played_at r))) file.
Proof.
  induction file as [|r file IH]; [done|].
  rewrite load_data_cons, fmap_app, IH, load_data_singleton, filter_cons. cbn zeta.
  case_bool_decide; by rewrite ?decide_True, ?decide_False by done.
Qed.

Lemma elem_of_load_data (file : DataFrame) (d : DashRow) :
  d ∈ load_data utc_offset file →
  merged_row d ∈ file
  ∧ played_at_local d = tz_convert utc_offset (played_at (merged_row d))
  ∧ year d = dt_year (played_at_local d)
  ∧ month d = dt_month (played_at_local d)
  ∧ 2017 ≤ year d.
Proof.
  induction file as [|r file IH]; [by intros ?%elem_of_nil|].
  rewrite load_data_cons, elem_of_app, load_data_singleton. cbn zeta.
  intros [Hd | Hd].
  - case_bool_decide; [|by apply elem_of_nil in Hd].
    apply list_elem_of_singleton in Hd as ->. cbn. split_and!; try done. by left.
  - destruct (IH Hd) as (? & ? & ? & ? & ?). split_and!; try done. by right.
Qed.

(** C10. Year cutoff of the dashboard loader: the rows of the merged file that
    [load_data] keeps are, in order, exactly those whose [played_at], read on
    the US/Eastern clock, falls in 2017 or later; the [year] column of every
    kept row is that local year; and a row of an earlier local year changes
    none of the figures the page derives, for any selected range of years. *)
Theorem load_data_year_cutoff (file : DataFrame) :
  merged_row <$> load_data utc_offset file
    = filter (λ r, 2017 ≤ dt_year (tz_convert utc_offset (played_at r))) file
  ∧ (∀ r, r ∈ file →
      (r ∈ merged_row <$> load_data utc_offset file
       ↔ 2017 ≤ dt_year (tz_convert utc_offset (played_at r))))
  ∧ (∀ d, d ∈ load_data utc_offset file →
      merged_row d ∈ file
      ∧ year d = dt_year (tz_convert utc_offset (played_at (merged_row d)))
      ∧ 2017 ≤ year d)
  ∧ (∀ (l1 l2 : DataFrame) (r : PlayEvent) (start_year end_year : Z),
      file = l1 ++ r :: l2 →
      dt_year (tz_convert utc_offset (played_at r)) < 2017 →
      load_data utc_offset file = load_data utc_offset (l1 ++ l2)
      ∧ summary utc_offset file start_year end_year
        = summary utc_offset (l1 ++ l2) start_year end_year).
Proof.
  split_and!.
  - apply load_data_rows.
  - intros r Hr. rewrite load_data_rows, list_elem_of_filter. tauto.
  - intros d (? & Hl & Hy & _ & ?)%elem_of_load_data. by rewrite <- Hl, <- Hy.
  - intros l1 l2 r start_year end_year -> Hold.
    assert (load_data utc_offset (l1 ++ r :: l2) = load_data utc_offset (l1 ++ l2)) as Heq.
    { rewrite !load_data_app, (load_data_cons r l2), load_data_singleton. cbn zeta.
      by rewrite bool_decide_eq_false_2 by lia. }
    split; [done|]. unfold summary. by rewrite Heq.
Qed.

End DashboardProperties.

(** The cutoff as an instant.  The local year is 2017 or later exactly from
    local midnight of 2017-01-01 on. *)
Lemma civil_year_2017 (z : Z) : 2017 ≤ (civil_from_days z).1.1 ↔ 17167 ≤ z.
Proof.
  unfold civil_from_days. cbn zeta. cbn [fst].
  repeat case_bool_decide; Z.div_mod_to_equations; lia.
Qed.

Lemma dt_year_2017 (wall : Z) : 2017 ≤ dt_year wall ↔ 17167 * NS_PER_DAY ≤ wall.
Proof.
  unfold dt_year, dt_date. rewrite civil_year_2017.
  unfold NS_PER_DAY, NS_PER_SECOND. Z.div_mod_to_equations. lia.
Qed.

Section EasternCutoff.

(** All that is used of the zone: its offset stays between five and four hours
    behind UTC, and standard time (five hours) is in force during the last
    hour of 2016. *)
Variable utc_offset : Timestamp → Z.
Hypothesis utc_offset_range : ∀ t, -18000 ≤ utc_offset t ≤ -14400.
Hypothesis utc_offset_winter :
  ∀ t, NEW_YEAR_2017_EST - 3600 * NS_PER_SECOND ≤ t < NEW_YEAR_2017_EST →
       utc_offset t = -18000.

Lemma eastern_cutoff_instant (t : Timestamp) :
  2017 ≤ dt_year (tz_convert utc_offset t) ↔ NEW_YEAR_2017_EST ≤ t.
Proof.
  rewrite dt_year_2017. unfold tz_convert.
  pose proof (utc_offset_range t) as Hrange.
  pose proof (utc_offset_winter t) as Hwinter.
  unfold NEW_YEAR_2017_EST, NS_PER_DAY, NS_PER_SECOND in *.
  split; intros Hle; [|lia].
  destruct (decide (1483246800 * 1000000000 ≤ t)) as [|Hlt]; [done|].
  destruct (decide (1483246800 * 1000000000 - 3600 * 1000000000 ≤ t)) as [Hnear|Hfar].
  - rewrite Hwinter in Hle by lia. lia.
  - lia.
Qed.

Lemma load_data_eastern (file : DataFrame) :
  merged_row <$> load_data utc_offset file
  = filter (λ r, NEW_YEAR_2017_EST ≤ played_at r) file.
Proof.
  rewrite load_data_rows. apply list_filter_iff. intros r. apply eastern_cutoff_instant.
Qed.

End EasternCutoff.

Lemma load_data_est (file : DataFrame) :
  merged_row <$> load_data est_offset file
  = filter (λ r, NEW_YEAR_2017_EST ≤ played_at r) file.
Proof. apply load_data_eastern; intros t; unfold est_offset; lia. Qed.

(** * The properties at work on the sample data *)

Lemma loader_threshold_filter_witness :
  Csv.ms_played (export_row T0 29999 "audio" "Intro" "The xx") = Some 29999
  ∧ 29999 < 30000
  ∧ loader_output
      (mk_world (Some (sample_export ++ export_row T0 29999 "audio" "Intro" "The xx" :: []))
         true (λ _, inr []))
    = loader_output (mk_world (Some (sample_export ++ [])) true (λ _, inr [])).
Proof.
  split; [reflexivity|]. split; [lia|].
  apply (proj1 (proj2 loader_threshold_filter) true (λ _, inr []) sample_export []
           (export_row T0 29999 "audio" "Intro" "The xx") 29999); [reflexivity | lia].
Defined.

Lemma loader_null_track_drop_witness :
  Csv.master_metadata_track_name (export_row T0 215000 "audio" EmptyString "The xx") = EmptyString
  ∧ loader_output
      (mk_world (Some (sample_export ++ export_row T0 215000 "audio" EmptyString "The xx" :: []))
         true (λ _, inr []))
    = loader_output (mk_world (Some (sample_export ++ [])) true (λ _, inr [])).
Proof.
  split; [reflexivity|].
  apply (proj1 loader_null_track_drop true (λ _, inr []) sample_export []
           (export_row T0 215000 "audio" EmptyString "The xx")).
  right. reflexivity.
Defined.

Lemma merge_cutoff_strict_witness :
  (∀ df, stable_sort_values df ≡ₚ df)
  ∧ historical_data sample_state = Some sample_historical
  ∧ api_data sample_state = Some sample_api
  ∧ sample_historical ≠ []
  ∧ series_max (played_at <$> sample_historical) = Some T0
  ∧ ∃ out : DataFrame,
      combine_data stable_sort_values sample_state
      = (mk_state (Some spotipy_client) (Some sample_historical) (Some sample_api)
           (Some out) None, inr true)
      ∧ (subset_key (listen T0 "Islands" "The xx" "xx" "API") ∉ subset_key <$> out)
      ∧ ∃ r', r' ∈ out
              ∧ subset_key r' = subset_key (listen (T0 + one_ms) "Crystalised" "The xx" "xx" "API").
Proof.
  assert (historical_data sample_state = Some sample_historical) as Hh by reflexivity.
  assert (api_data sample_state = Some sample_api) as Ha by reflexivity.
  assert (sample_historical ≠ []) as Hne by discriminate.
  assert (series_max (played_at <$> sample_historical) = Some T0) as Hmax by reflexivity.
  split; [exact stable_sort_values_perm|].
  split; [exact Hh|]. split; [exact Ha|]. split; [exact Hne|]. split; [exact Hmax|].
  destruct (merge_cutoff_strict stable_sort_values stable_sort_values_perm
              sample_state sample_historical sample_api T0 Hh Ha Hne Hmax)
    as (_ & out & Hrun & _ & _ & _ & _ & Hat & Hafter).
  exists out. split; [exact Hrun|]. split.
  - apply (Hat (listen T0 "Islands" "The xx" "xx" "API")); [left | reflexivity |].
    intros Hin. apply (bool_decide_pack _) in Hin. by vm_compute in Hin.
  - destruct (Hafter (listen (T0 + one_ms) "Crystalised" "The xx" "xx" "API"))
      as (r' & Hr' & _ & Hkey & _); [right; left | reflexivity |].
    exists r'. split; [exact Hr' | exact Hkey].
Defined.

Lemma combine_data_historical_guard_witness :
  (∀ df, stable_sort_values df ≡ₚ df)
  ∧ combine_data stable_sort_values
      (mk_state (Some spotipy_client) None (Some sample_api) None None)
    = (mk_state (Some spotipy_client) None (Some sample_api) None None, inr false)
  ∧ combine_data stable_sort_values
      (mk_state (Some spotipy_client) (Some []) (Some sample_api) None None)
    = (mk_state (Some spotipy_client) (Some []) (Some sample_api) (Some []) None, inr true)
  ∧ (combine_data stable_sort_values sample_state).2 = inr true.
Proof.
  split; [exact stable_sort_values_perm|]. split; [|split].
  - exact (proj1 (combine_data_historical_guard stable_sort_values stable_sort_values_perm
                    (mk_state (Some spotipy_client) None (Some sample_api) None None))
             eq_refl).
  - destruct (combine_data_historical_guard stable_sort_values stable_sort_values_perm
                (mk_state (Some spotipy_client) (Some []) (Some sample_api) None None))
      as (_ & _ & _ & Hloaded).
    destruct (Hloaded [] eq_refl) as (out & Hrun & Hempty).
    rewrite (Hempty eq_refl) in Hrun. exact Hrun.
  - destruct (combine_data_historical_guard stable_sort_values stable_sort_values_perm
                sample_state) as (_ & _ & _ & Hloaded).
    destruct (Hloaded sample_historical eq_refl) as (out & Hrun & _).
    rewrite Hrun. reflexivity.
Defined.

Lemma merged_dedup_invariant_witness :
  (∀ df, stable_sort_values df ≡ₚ df)
  ∧ combine_data stable_sort_values sample_state = (sample_merged_state, inr true)
  ∧ ∃ out, combined_data sample_merged_state = Some out ∧ NoDup (subset_key <$> out).
Proof.
  assert (combine_data stable_sort_values sample_state = (sample_merged_state, inr true))
    as Hrun by (vm_compute; reflexivity).
  split; [exact stable_sort_values_perm|]. split; [exact Hrun|].
  destruct (merged_dedup_invariant stable_sort_values stable_sort_values_perm
              sample_state sample_merged_state Hrun) as (h & out & _ & Hout & Hnodup & _).
  exists out. split; [exact Hout | exact Hnodup].
Defined.

Lemma merged_sort_invariant_witness :
  (∀ df, Sorted played_at_le (stable_sort_values df))
  ∧ combine_data stable_sort_values sample_state = (sample_merged_state, inr true)
  ∧ ∃ out, combined_data sample_merged_state = Some out ∧ Sorted played_at_le out.
Proof.
  assert (combine_data stable_sort_values sample_state = (sample_merged_state, inr true))
    as Hrun by (vm_compute; reflexivity).
  split; [exact stable_sort_values_sorted|]. split; [exact Hrun|].
  destruct (merged_sort_invariant stable_sort_values stable_sort_values_sorted
              sample_state sample_merged_state Hrun) as (out & Hout & Hsorted & _).
  exists out. split; [exact Hout | exact Hsorted].
Defined.

Lemma graceful_api_degradation_witness :
  csv_file expired_world = Some sample_export
  ∧ historical_table sample_export ≠ []
  ∧ recently_played expired_world 50 = inl (SpotifyException AuthExpired)
  ∧ main stable_sort_values expired_world
    = mk_outcome 0
        (Some (drop_duplicates (stable_sort_values (historical_table sample_export)))).
Proof.
  assert (csv_file expired_world = Some sample_export) as Hfile by reflexivity.
  assert (historical_table sample_export ≠ []) as Hne by (vm_compute; discriminate).
  assert (recently_played expired_world 50 = inl (SpotifyException AuthExpired)) as Hcall
    by reflexivity.
  split; [exact Hfile|]. split; [exact Hne|]. split; [exact Hcall|].
  destruct (graceful_api_degradation stable_sort_values stable_sort_values_perm
              expired_world sample_export Hfile Hne
              (or_intror (or_introl (ex_intro _ _ Hcall))))
    as (s2 & s3 & _ & _ & _ & _ & _ & Hmain).
  exact Hmain.
Defined.

Lemma main_exit_status_witness :
  csv_file missing_world = None
  ∧ main stable_sort_values missing_world = mk_outcome 0 None
  ∧ csv_file sample_world = Some sample_export
  ∧ historical_table sample_export ≠ []
  ∧ exit_status (main stable_sort_values sample_world) = 0.
Proof.
  assert (csv_file missing_world = None) as Hmissing by reflexivity.
  assert (csv_file sample_world = Some sample_export) as Hfile by reflexivity.
  assert (historical_table sample_export ≠ []) as Hne by (vm_compute; discriminate).
  split; [exact Hmissing|]. split.
  - exact (proj1 (main_exit_status stable_sort_values stable_sort_values_perm missing_world)
             Hmissing).
  - split; [exact Hfile|]. split; [exact Hne|].
    rewrite (proj2 (main_exit_status stable_sort_values stable_sort_values_perm sample_world)
               sample_export Hfile Hne).
    reflexivity.
Defined.

Lemma season_labeling_witness :
  1 ≤ 7 ≤ 12 ∧ (get_season 7 = "Summer"%string ↔ 7 ∈ [6; 7; 8]).
Proof.
  assert (1 ≤ 7 ≤ 12) as Hmonth by lia.
  split; [exact Hmonth|].
  exact (proj1 (proj2 (proj2 (proj1 season_labeling 7 Hmonth)))).
Defined.

Lemma load_data_year_cutoff_witness :
  dt_year (tz_convert est_offset (NEW_YEAR_2017_EST - NS_PER_SECOND)) < 2017
  ∧ load_data est_offset sample_merged_file
    = load_data est_offset ([] ++ [listen NEW_YEAR_2017_EST "Angels" "The xx" "Coexist" "ios"]).
Proof.
  assert (dt_year (tz_convert est_offset (NEW_YEAR_2017_EST - NS_PER_SECOND)) < 2017)
    as Hold by (vm_compute; reflexivity).
  split; [exact Hold|].
  exact (proj1 (proj2 (proj2 (proj2 (load_data_year_cutoff est_offset sample_merged_file)))
                 [] [listen NEW_YEAR_2017_EST "Angels" "The xx" "Coexist" "ios"]
                 (listen (NEW_YEAR_2017_EST - NS_PER_SECOND) "Intro" "The xx" "xx" "ios")
                 2017 2017 eq_refl Hold)).
Defined.

(** ** Where the code departs from the specification *)

(** C1 does not hold of the code: an export whose only row is a ten-second
    play loads as a historical table without rows, and [combine_data] then
    returns [True], with an empty merged table, although the API returned a
    listen. *)
Lemma combine_data_accepts_empty_historical :
  loader_output skipped_world = Some []
  ∧ combine_data stable_sort_values
      (mk_state (Some spotipy_client) (Some []) (Some sample_api) None None)
    = (mk_state (Some spotipy_client) (Some []) (Some sample_api) (Some []) None, inr true).
Proof. split; vm_compute; reflexivity. Qed.

(** C8 does not hold of the code: with the export missing, [main] returns
    normally and the exit status of the script is zero. *)
Lemma main_missing_export_exits_zero :
  csv_file missing_world = None
  ∧ exit_status (main stable_sort_values missing_world) = 0.
Proof. split; vm_compute; reflexivity. Qed.

(** ** Further runs of the model *)

(** With an export that yields no listen the merge succeeds on an empty table,
    and [print_statistics] then raises on the missing date range: the run ends
    with a traceback, and nothing is written. *)
Example main_on_empty_table :
  main stable_sort_values skipped_world = mk_outcome 1 None.
Proof. vm_compute. reflexivity. Qed.

(** A full run: the two listens of the export and the newer one of the API. *)
Example main_on_sample :
  (λ o, (exit_status o, (λ df : DataFrame, played_at <$> df) <$> written o))
    (main stable_sort_values sample_world)
  = (0, Some [T0 - 60000 * one_ms; T0; T0 + one_ms]).
Proof. vm_compute. reflexivity. Qed.

(** Of the two rows of the sample historical table that share a key, the one
    that comes first in the sorted table is kept; the API row played at the
    cutoff is not taken. *)
Example merged_on_sample :
  fmap (λ r, (played_at r, album_name r)) (merged stable_sort_values sample_historical
                                             (Some sample_api))
  = [ (T0 - 60000 * one_ms, Some "Coexist"%string);
      (T0, Some "xx"%string);
      (T0 + one_ms, Some "xx"%string) ].
Proof. vm_compute. reflexivity. Qed.

(** The listen at 23:59:59 on 2016-12-31 in New York is dropped by the
    dashboard although it is a listen of 2017 on the UTC clock. *)
Example load_data_on_sample :
  dt_year (NEW_YEAR_2017_EST - NS_PER_SECOND) = 2017
  ∧ fmap (λ d, (played_at (merged_row d), year d, month d, day_name d))
      (load_data est_offset sample_merged_file)
    = [ (NEW_YEAR_2017_EST, 2017, 1, "Sunday"%string) ].
Proof. split; vm_compute; reflexivity. Qed.

(** * Further properties of the code *)

(** ** The loader *)

Lemma content_type_audio (cell : string) :
  eq_scalar (na_filter cell) CONTENT_TYPE_FILTER = true ↔ cell = "audio"%string.
Proof.
  split.
  - unfold na_filter. case_bool_decide; [done|]. cbn. by rewrite bool_decide_eq_true.
  - by intros ->.
Qed.

(** X1. Content filter: every row of the Loader's output comes from a row of
    the export whose [content_type] is exactly [audio]; a row of any other
    content type (a podcast, a video, a missing type) leaves no trace in the
    output, however long it was played. *)
Theorem loader_content_filter :
  (∀ (w : World) (out : DataFrame) (e : PlayEvent),
      loader_output w = Some out → e ∈ out →
      ∃ (file : list (Csv.row string)) (r : Csv.row string),
        csv_file w = Some file ∧ r ∈ file ∧ e = standardize (read_csv_row r)
        ∧ Csv.content_type r = "audio"%string)
  ∧ (∀ (oauth : bool) (api : Z → Exn + list Api.item)
       (l1 l2 : list (Csv.row string)) (r : Csv.row string),
      Csv.content_type r ≠ "audio"%string →
      loader_output (mk_world (Some (l1 ++ r :: l2)) oauth api)
      = loader_output (mk_world (Some (l1 ++ l2)) oauth api)).
Proof.
  split.
  - intros w out e (file & Hf & ->)%loader_output_inv He.
    apply elem_of_historical_table in He as (r & Hr & -> & _ & Hct%content_type_audio & _).
    by exists file, r.
  - intros oauth api l1 l2 r Hct.
    rewrite (loader_output_present _ (l1 ++ r :: l2)), (loader_output_present _ (l1 ++ l2))
      by done.
    f_equal. rewrite !historical_table_app, (historical_table_cons r l2).
    rewrite historical_table_singleton.
    destruct (eq_scalar _ _) eqn:E; [by apply content_type_audio in E|].
    by rewrite andb_false_r.
Qed.

(** The three masks and the renaming as one filter and one map. *)
Lemma historical_table_filter (file : list (Csv.row string)) :
  historical_table file =
    (λ r, standardize (read_csv_row r)) <$>
      filter (λ r, ge_scalar (Csv.ms_played r) MIN_PLAY_TIME_MS
                   && eq_scalar (na_filter (Csv.content_type r)) CONTENT_TYPE_FILTER
                   && notna (na_filter (Csv.master_metadata_track_name r))) file.
Proof.
  induction file as [|r file IH]; [done|].
  rewrite historical_table_cons, IH, historical_table_singleton, filter_cons.
  destruct (_ && _ && _); by rewrite ?decide_True, ?decide_False by (simpl; tauto).
Qed.

(** X2. The loader keeps the order of the file and never adds a row: its
    output has at most as many rows as the export, and an export whose rows
    are in ascending [ts] order gives a table in ascending [played_at] order
    (the loader itself does not sort). *)
Theorem loader_keeps_order (w : World) (file : list (Csv.row string)) :
  csv_file w = Some file →
  ∃ out : DataFrame,
    loader_output w = Some out
    ∧ (length out ≤ length file)%nat
    ∧ (Sorted (λ r1 r2, Csv.ts r1 ≤ Csv.ts r2) file → Sorted played_at_le out).
Proof.
  intros Hf. exists (historical_table file). split_and!.
  - by apply loader_output_present.
  - rewrite historical_table_filter, length_fmap. apply length_filter.
  - intros Hsorted. rewrite historical_table_filter.
    apply StronglySorted_Sorted.
    apply (StronglySorted_fmap _ (λ r1 r2, Csv.ts r1 ≤ Csv.ts r2)); [done|].
    apply (StronglySorted_sublist _ _ file); [apply sublist_filter|].
    apply Sorted_StronglySorted; [|done]. intros r1 r2 r3. lia.
Qed.

(** ** The fetcher *)

(** X3. [fetch_recent_api_data] never raises, whatever the API does, and
    leaves every attribute but [api_data] as it was.  It returns [True]
    exactly when a client exists and the call returned at least one item; the
    Recent table then holds one row per item, in the order of the answer. *)
Theorem fetch_recent_api_data_total (w : World) (limit : Z) (s : State) :
  ∃ (api : option DataFrame) (ok : bool),
    fetch_recent_api_data w limit s =
      (mk_state (sp s) (historical_data s) api (combined_data s) (saved_csv s), inr ok)
    ∧ (ok = true ↔
       is_Some (sp s) ∧ ∃ item items, recently_played w limit = inr (item :: items))
    ∧ (ok = true →
       ∃ items, recently_played w limit = inr items
                ∧ api = Some (api_row <$> items)
                ∧ Api.played_at <$> items = played_at <$> (api_row <$> items)).
Proof.
  rewrite fetch_recent_api_data_unfold. destruct s as [[c|] h a cd sv]; cbn [sp].
  - destruct (recently_played w limit) as [e | [|item items]];
      eexists _, _; (split; [reflexivity|]); split.
    + split; [done | by intros [_ (? & ? & ?)]].
    + done.
    + split; [done | by intros [_ (? & ? & ?)]].
    + done.
    + split; [|done]. intros _. split; [by eexists | by eexists _, _].
    + intros _. exists (item :: items). split_and!; [done | done |].
      rewrite <- list_fmap_compose. by apply list_fmap_ext.
  - eexists _, _. split; [reflexivity|]. split; [|done].
    split; [done | by intros [[? ?] _]].
Qed.

(** X4. Rows built from the API: after a fetch that returned [True], every
    row of the Recent table carries a track name, a duration and a URI, is
    tagged with the platform [API], and has no country, shuffle or skipped
    value. *)
Theorem fetched_rows_shape (w : World) (limit : Z) (s s' : State) (r : PlayEvent) :
  fetch_recent_api_data w limit s = (s', inr true) →
  ∃ df : DataFrame,
    api_data s' = Some df
    ∧ df ≠ []
    ∧ (r ∈ df →
       is_Some (track_name r) ∧ is_Some (duration_ms r) ∧ is_Some (spotify_track_uri r)
       ∧ platform r = Some "API"%string
       ∧ conn_country r = None ∧ shuffle r = None ∧ skipped r = None).
Proof.
  rewrite fetch_recent_api_data_unfold. destruct s as [[c|] h a cd sv]; cbn [sp]; [|done].
  destruct (recently_played w limit) as [e | [|item items]]; [done | done |].
  intros [= <-]. exists (api_row <$> (item :: items)). split_and!; [done | done |].
  intros (i & -> & _)%list_elem_of_fmap. cbn. split_and!; by eauto.
Qed.

(** X5. What a failed fetch leaves behind: without a client, or when the call
    raises, the object is exactly as before, a Recent table fetched earlier
    included; when the call returns no item, the Recent table is replaced by
    an empty one.  [False] is returned in the three cases. *)
Theorem fetch_failure_state (w : World) (limit : Z) (s : State) :
  (sp s = None ∨ (∃ e, recently_played w limit = inl e) →
    fetch_recent_api_data w limit s = (s, inr false))
  ∧ (is_Some (sp s) → recently_played w limit = inr [] →
    fetch_recent_api_data w limit s =
      (mk_state (sp s) (historical_data s) (Some []) (combined_data s) (saved_csv s),
       inr false)).
Proof.
  rewrite fetch_recent_api_data_unfold. destruct s as [[c|] h a cd sv]; cbn [sp]; split.
  - intros [? | [e ->]]; done.
  - by intros _ ->.
  - done.
  - by intros [? ?].
Qed.

(** ** Statistics *)

Lemma foldl_min_spec (col : list Timestamp) (t : Timestamp) :
  foldl Z.min t col ∈ t :: col ∧ ∀ x, x ∈ t :: col → foldl Z.min t col ≤ x.
Proof.
  revert t. induction col as [|y col IH]; intros t; cbn.
  - split; [by left|]. intros x ->%list_elem_of_singleton. lia.
  - destruct (IH (Z.min t y)) as [Hin Hlb]. split.
    + apply elem_of_cons in Hin as [Heq | Hin].
      * rewrite Heq. destruct (Z.min_spec t y) as [[_ ->] | [_ ->]].
        -- by left.
        -- right. by left.
      * do 2 right. exact Hin.
    + intros x [-> | [-> | Hx]%elem_of_cons]%elem_of_cons.
      * pose proof (Hlb (Z.min t y) ltac:(by left)). lia.
      * pose proof (Hlb (Z.min t y) ltac:(by left)). lia.
      * apply Hlb. by right.
Qed.

Lemma series_min_Some (col : list Timestamp) (t : Timestamp) :
  series_min col = Some t ↔ t ∈ col ∧ ∀ x, x ∈ col → t ≤ x.
Proof.
  destruct col as [|t0 col]; cbn.
  - split; [done | by intros [?%elem_of_nil _]].
  - destruct (foldl_min_spec col t0) as [Hin Hlb]. split.
    + by intros [= <-].
    + intros [Ht Hlb']. f_equal.
      pose proof (Hlb t Ht). pose proof (Hlb' _ Hin). lia.
Qed.

Lemma series_max_Some_iff (col : list Timestamp) (t : Timestamp) :
  series_max col = Some t ↔ t ∈ col ∧ ∀ x, x ∈ col → x ≤ t.
Proof.
  split; [apply series_max_Some|].
  destruct col as [|t0 col]; cbn; [by intros [?%elem_of_nil _]|].
  destruct (foldl_max_spec col t0) as [Hin Hub].
  intros [Ht Hub']. f_equal.
  pose proof (Hub t Ht). pose proof (Hub' _ Hin). lia.
Qed.

Lemma series_min_is_Some (col : list Timestamp) : col ≠ [] → is_Some (series_min col).
Proof. destruct col; [done | by eexists]. Qed.

(** X8. [get_statistics] at its edges: it returns [None] when nothing was
    combined, raises [ValueError] exactly when the combined table has no row,
    and otherwise returns the number of rows and a date range that brackets
    every row and is reached at both ends.  It never changes the object. *)
Theorem get_statistics_edges (s : State) :
  (combined_data s = None → get_statistics s = (s, inr None))
  ∧ (combined_data s = Some [] → get_statistics s = (s, inl ValueError))
  ∧ (∀ df, combined_data s = Some df → df ≠ [] →
      ∃ stats : Statistics,
        get_statistics s = (s, inr (Some stats))
        ∧ total_streams stats = length df
        ∧ (∃ r, r ∈ df ∧ played_at r = date_range_first stats)
        ∧ (∃ r, r ∈ df ∧ played_at r = date_range_last stats)
        ∧ ∀ r, r ∈ df → date_range_first stats ≤ played_at r ≤ date_range_last stats).
Proof.
  unfold get_statistics. cbv [mbind M_bind get]. split_and!.
  - by intros ->.
  - by intros ->.
  - intros df -> Hne.
    destruct (series_min_is_Some (played_at <$> df)) as [t1 H1]; [by destruct df|].
    destruct (series_max_is_Some (played_at <$> df)) as [t2 H2]; [by destruct df|].
    rewrite H1, H2. eexists. split; [reflexivity|]. cbn.
    apply series_min_Some in H1 as [Hin1 Hlb]. apply series_max_Some in H2 as [Hin2 Hub].
    apply list_elem_of_fmap in Hin1 as (r1 & -> & Hr1).
    apply list_elem_of_fmap in Hin2 as (r2 & -> & Hr2).
    split_and!; [done | by exists r1 | by exists r2 |].
    intros r Hr. split; [apply Hlb | apply Hub]; by apply list_elem_of_fmap_2.
Qed.

Lemma get_statistics_Some (s : State) (df : DataFrame) (first last : Timestamp) :
  combined_data s = Some df →
  series_min (played_at <$> df) = Some first →
  series_max (played_at <$> df) = Some last →
  get_statistics s = (s, inr (Some (mk_stats (length df) first last))).
Proof.
  intros Hdf Hmin Hmax. unfold get_statistics. cbv [mbind M_bind get].
  by rewrite Hdf, Hmin, Hmax.
Qed.

Lemma series_min_ext (col1 col2 : list Timestamp) :
  (∀ x, x ∈ col1 ↔ x ∈ col2) → series_min col1 = series_min col2.
Proof.
  intros Hext. destruct (series_min col1) as [t|] eqn:E1.
  - symmetry. apply series_min_Some. apply series_min_Some in E1 as [Hin Hlb].
    split; [by apply Hext|]. intros x Hx. apply Hlb. by apply Hext.
  - destruct col1 as [|t1 col1]; [|done]. destruct col2 as [|t2 col2]; [done|].
    exfalso. eapply elem_of_nil. apply Hext. by left.
Qed.

Lemma series_max_ext (col1 col2 : list Timestamp) :
  (∀ x, x ∈ col1 ↔ x ∈ col2) → series_max col1 = series_max col2.
Proof.
  intros Hext. destruct (series_max col1) as [t|] eqn:E1.
  - symmetry. apply series_max_Some_iff. apply series_max_Some in E1 as [Hin Hub].
    split; [by apply Hext|]. intros x Hx. apply Hub. by apply Hext.
  - destruct col1 as [|t1 col1]; [|done]. destruct col2 as [|t2 col2]; [done|].
    exfalso. eapply elem_of_nil. apply Hext. by left.
Qed.

(** ** The merge and the run, further *)

Section MergeFurther.

Variable sort_values : DataFrame → DataFrame.
Hypothesis sort_values_perm : ∀ df, sort_values df ≡ₚ df.
Hypothesis sort_values_sorted : ∀ df, Sorted played_at_le (sort_values df).

Lemma merged_complete (historical : DataFrame) (api : option DataFrame) (r : PlayEvent) :
  r ∈ concatenated historical api →
  ∃ r', r' ∈ merged sort_values historical api ∧ subset_key r' = subset_key r.
Proof.
  intros Hr. apply drop_duplicates_complete. by rewrite sort_values_perm.
Qed.

Lemma merged_length (historical : DataFrame) (api : option DataFrame) :
  (length (merged sort_values historical api)
   ≤ length historical + length (from_option (new_api_data historical) [] api))%nat.
Proof.
  unfold merged.
  etrans; [apply sublist_length, drop_duplicates_sublist|].
  by rewrite sort_values_perm, concatenated_cases, length_app.
Qed.

Lemma new_api_data_length (historical : DataFrame) (api : option DataFrame) :
  (length (from_option (new_api_data historical) [] api) ≤ length (default [] api))%nat.
Proof.
  destruct api as [api|]; cbn; [|done]. apply sublist_length, loc_mask_sublist.
Qed.

Lemma merged_sorted (historical : DataFrame) (api : option DataFrame) :
  Sorted played_at_le (merged sort_values historical api).
Proof.
  apply StronglySorted_Sorted.
  apply (StronglySorted_sublist _ _ _ (drop_duplicates_sublist _)).
  apply Sorted_StronglySorted; [apply _ | apply sort_values_sorted].
Qed.

(** X6. The merge neither loses nor invents a listen: when [combine_data]
    succeeds, the keys [(played_at, track_name, artist_name)] of the merged
    table are exactly the keys of the historical rows and of the API rows
    newer than the cutoff; every merged row is one of those rows; and the
    merged table has at most as many rows as the two tables together. *)
Theorem merged_keeps_every_key (s s' : State) :
  combine_data sort_values s = (s', inr true) →
  ∃ historical out : DataFrame,
    historical_data s = Some historical
    ∧ combined_data s' = Some out
    ∧ (∀ k, k ∈ subset_key <$> out ↔
            k ∈ subset_key <$> historical
            ∨ k ∈ subset_key <$> from_option (new_api_data historical) [] (api_data s))
    ∧ (∀ r, r ∈ out →
            r ∈ historical ∨ r ∈ from_option (new_api_data historical) [] (api_data s))
    ∧ (length out ≤ length historical + length (default [] (api_data s)))%nat.
Proof.
  intros (historical & Hh & Hout)%combine_data_success.
  exists historical, (merged sort_values historical (api_data s)).
  assert (∀ r, r ∈ merged sort_values historical (api_data s) →
            r ∈ historical ∨ r ∈ from_option (new_api_data historical) [] (api_data s))
    as Hfrom.
  { intros r Hr%(elem_of_merged _ sort_values_perm).
    rewrite concatenated_cases in Hr. by apply elem_of_app in Hr. }
  split_and!; [done | done | | exact Hfrom |].
  - intros k. rewrite <- elem_of_app, <- fmap_app, <- concatenated_cases. split.
    + intros (r & -> & Hr%(elem_of_merged _ sort_values_perm))%list_elem_of_fmap.
      by apply list_elem_of_fmap_2.
    + intros (r & -> & Hr)%list_elem_of_fmap.
      destruct (merged_complete historical (api_data s) r Hr) as (r' & Hr' & <-).
      by apply list_elem_of_fmap_2.
  - etrans; [apply merged_length|]. pose proof (new_api_data_length historical (api_data s)).
    lia.
Qed.

(** X7. The file a run writes.  [main] writes the combined file exactly when
    the export is there and yields at least one listen.  The file it writes is
    then the merge of the loaded export with the fetched rows: it is not
    empty, ascending in [played_at], free of duplicate keys, and holds the key
    of every loaded historical row; the exit status is zero. *)
Theorem main_output_file (w : World) :
  (written (main sort_values w) = None ↔
     csv_file w = None ∨ ∃ file, csv_file w = Some file ∧ historical_table file = [])
  ∧ (∀ out, written (main sort_values w) = Some out →
      exit_status (main sort_values w) = 0
      ∧ ∃ file,
          csv_file w = Some file
          ∧ out = merged sort_values (historical_table file) (fetched_api w)
          ∧ out ≠ []
          ∧ Sorted played_at_le out
          ∧ NoDup (subset_key <$> out)
          ∧ ∀ h, h ∈ historical_table file → subset_key h ∈ subset_key <$> out).
Proof.
  destruct (csv_file w) as [file|] eqn:Hf.
  - rewrite (main_present sort_values w file Hf).
    destruct (decide (historical_table file = [])) as [Hnil | Hne].
    + rewrite Hnil, (merged_empty_historical _ sort_values_perm). cbn. split; [|done].
      split; [|done]. intros _. right. by exists file.
    + pose proof (merged_nonempty _ sort_values_perm _ (fetched_api w) Hne) as Hm.
      destruct (merged sort_values (historical_table file) (fetched_api w))
        as [|r out'] eqn:Hmerged; [done|]. cbn. split.
      * split; [done|]. intros [? | (file' & [= <-] & ?)]; done.
      * intros out [= <-]. split; [done|]. exists file. rewrite <- Hmerged.
        split_and!; [done | done | by rewrite Hmerged | apply merged_sorted
                     | apply drop_duplicates_NoDup |].
        intros h Hh.
        destruct (merged_complete (historical_table file) (fetched_api w) h)
          as (r' & Hr' & <-).
        { rewrite concatenated_cases. apply elem_of_app. by left. }
        by apply list_elem_of_fmap_2.
  - rewrite (main_missing sort_values w Hf). cbn. split; [|done].
    split; [by left | done].
Qed.

(** X9. Statistics of a merged table: after a successful [combine_data] on a
    historical table with at least one row, [get_statistics] does not raise;
    it counts at least one stream and at most the rows of the two tables; its
    date range starts at the earliest historical listen (an API row is never
    the first), and ends at the latest listen of the concatenated table. *)
Theorem statistics_after_merge (s s' : State) (historical : DataFrame) :
  combine_data sort_values s = (s', inr true) →
  historical_data s = Some historical →
  historical ≠ [] →
  ∃ stats : Statistics,
    get_statistics s' = (s', inr (Some stats))
    ∧ (1 ≤ total_streams stats ≤ length historical + length (default [] (api_data s)))%nat
    ∧ series_min (played_at <$> historical) = Some (date_range_first stats)
    ∧ series_max (played_at <$> concatenated historical (api_data s))
      = Some (date_range_last stats).
Proof.
  intros (h & Hh & Hout)%combine_data_success Hhist Hne.
  rewrite Hhist in Hh. injection Hh as <-.
  set (out := merged sort_values historical (api_data s)) in *.
  assert (∀ x, x ∈ played_at <$> out ↔ x ∈ played_at <$> concatenated historical (api_data s))
    as Hsame.
  { intros x. split.
    - intros (r & -> & Hr%(elem_of_merged _ sort_values_perm))%list_elem_of_fmap.
      by apply list_elem_of_fmap_2.
    - intros (r & -> & Hr)%list_elem_of_fmap.
      destruct (merged_complete historical (api_data s) r Hr) as (r' & Hr' & Hkey).
      apply list_elem_of_fmap. exists r'. split; [|done]. by injection Hkey. }
  destruct (series_min_is_Some (played_at <$> historical)) as [first Hfirst];
    [by destruct historical|].
  destruct (series_max_is_Some (played_at <$> concatenated historical (api_data s)))
    as [last Hlast].
  { rewrite concatenated_cases. by destruct historical. }
  assert (series_min (played_at <$> out) = Some first) as Hmin.
  { rewrite (series_min_ext _ _ Hsame). apply series_min_Some.
    apply series_min_Some in Hfirst as [Hin Hlb]. split.
    - rewrite concatenated_cases, fmap_app. apply elem_of_app. by left.
    - intros x. rewrite concatenated_cases, fmap_app, elem_of_app.
      intros [Hx | (r & -> & Hr)%list_elem_of_fmap]; [by apply Hlb|].
      destruct (api_data s) as [api|]; cbn in Hr; [|by apply elem_of_nil in Hr].
      apply elem_of_new_api_data in Hr as (_ & T & HT & Hlt).
      apply series_max_Some in HT as [HTin Hub]. specialize (Hlb T HTin). lia. }
  assert (series_max (played_at <$> out) = Some last) as Hmax.
  { by rewrite (series_max_ext _ _ Hsame). }
  exists (mk_stats (length out) first last). split_and!.
  - by apply get_statistics_Some.
  - cbn. pose proof (merged_nonempty _ sort_values_perm _ (api_data s) Hne) as Hm.
    fold out in Hm. destruct out; [done | cbn; lia].
  - cbn. etrans; [apply merged_length|].
    pose proof (new_api_data_length historical (api_data s)). lia.
  - done.
  - done.
Qed.

End MergeFurther.

(** ** Rankings *)

Lemma elem_of_series_unique {A : Type} `{EqDecision A} (col : list A) (x : A) :
  x ∈ series_unique col ↔ x ∈ col.
Proof.
  unfold series_unique. by rewrite elem_of_reverse, elem_of_remove_dups, elem_of_reverse.
Qed.

Lemma series_unique_NoDup {A : Type} `{EqDecision A} (col : list A) :
  NoDup (series_unique col).
Proof. unfold series_unique. rewrite reverse_Permutation. apply NoDup_remove_dups. Qed.

Lemma elem_of_omap_id {A : Type} (col : list (option A)) (x : A) :
  x ∈ omap id col ↔ Some x ∈ col.
Proof.
  rewrite list_elem_of_omap. split.
  - intros (o & Ho & Hid). cbn in Hid. by subst o.
  - intros Hx. by exists (Some x).
Qed.

Lemma count_of_pos (col : list (option string)) (v : string) :
  Some v ∈ col → (1 ≤ count_of col v)%nat.
Proof.
  intros Hv. unfold count_of.
  assert (Some v ∈ filter (λ x, x = Some v) col) as Hin by (by apply list_elem_of_filter).
  destruct (filter _ col); [by apply elem_of_nil in Hin | cbn; lia].
Qed.

Section RankingProperties.

Variable sort_counts : list (string * nat) → list (string * nat).
Hypothesis sort_counts_perm : ∀ l, sort_counts l ≡ₚ l.
Hypothesis sort_counts_sorted : ∀ l, Sorted counts_desc (sort_counts l).

Lemma elem_of_value_counts (col : list (option string)) (v : string) (c : nat) :
  (v, c) ∈ value_counts sort_counts col ↔ Some v ∈ col ∧ c = count_of col v.
Proof.
  unfold value_counts. rewrite sort_counts_perm, list_elem_of_fmap. split.
  - intros (v' & [= -> ->] & Hv%elem_of_series_unique%elem_of_omap_id). done.
  - intros [Hv ->]. exists v. split; [done|].
    by apply elem_of_series_unique, elem_of_omap_id.
Qed.

Lemma value_counts_NoDup (col : list (option string)) :
  NoDup ((value_counts sort_counts col).*1).
Proof.
  unfold value_counts. rewrite sort_counts_perm.
  assert (∀ l : list string, ((λ v, (v, count_of col v)) <$> l).*1 = l) as ->.
  { induction l as [|v l IH]; cbn; [done | by f_equal]. }
  apply series_unique_NoDup.
Qed.

(** What [value_counts().head(n)] guarantees, whatever the order among equal
    counts. *)
Lemma ranking_spec (col : list (option string)) (n : nat) :
  let top := take n (value_counts sort_counts col) in
  (length top ≤ n)%nat
  ∧ NoDup top.*1
  ∧ Sorted counts_desc top
  ∧ (∀ v c, (v, c) ∈ top → Some v ∈ col ∧ c = count_of col v ∧ (1 ≤ c)%nat)
  ∧ (∀ v, Some v ∈ col → v ∉ top.*1 →
      length top = n ∧ ∀ v' c', (v', c') ∈ top → (count_of col v ≤ c')%nat).
Proof.
  intros top.
  assert (StronglySorted counts_desc (value_counts sort_counts col)) as Hsorted.
  { apply Sorted_StronglySorted; [apply _ | apply sort_counts_sorted]. }
  split_and!.
  - unfold top. rewrite length_take. lia.
  - unfold top. rewrite fmap_take.
    eapply sublist_NoDup; [apply value_counts_NoDup | apply sublist_take].
  - apply StronglySorted_Sorted.
    by apply (StronglySorted_sublist _ _ _ (sublist_take _ n)).
  - intros v c Hin.
    pose proof (elem_of_sublist _ _ _ Hin (sublist_take (value_counts sort_counts col) n))
      as Hin'.
    apply elem_of_value_counts in Hin' as [Hv ->]. split_and!; [done | done |].
    by apply count_of_pos.
  - intros v Hv Hout.
    assert ((v, count_of col v) ∈ value_counts sort_counts col) as Hin
        by (by apply elem_of_value_counts).
    rewrite <- (take_drop n (value_counts sort_counts col)) in Hin, Hsorted.
    apply elem_of_app in Hin as [Hin | Hin].
    { exfalso. apply Hout. by apply (list_elem_of_fmap_2 fst) in Hin. }
    split.
    + unfold top. rewrite length_take.
      destruct (decide (n ≤ length (value_counts sort_counts col))%nat); [lia|].
      rewrite drop_ge in Hin by lia. by apply elem_of_nil in Hin.
    + intros v' c' Hin'.
      exact (StronglySorted_app_1_elem_of _ _ _ _ _ Hsorted Hin' Hin).
Qed.

(** X10. The ten most played artists of [get_statistics]: the ranking lists
    at most ten artists, each once, by decreasing number of plays; the number
    beside an artist is the number of rows of the table with that artist, and
    is at least one; rows without an artist are not ranked; and when an artist
    of the table is not listed, the list is full and every listed artist has at
    least as many plays.  This holds whatever order the sort gives to equal
    counts. *)
Theorem top_10_artists_ranking (df : DataFrame) :
  let top := top_10_artists sort_counts df in
  (length top ≤ 10)%nat
  ∧ NoDup top.*1
  ∧ Sorted counts_desc top
  ∧ (∀ a c, (a, c) ∈ top →
      c = length (filter (λ r, artist_name r = Some a) df) ∧ (1 ≤ c)%nat)
  ∧ (∀ r a, r ∈ df → artist_name r = Some a → a ∉ top.*1 →
      length top = 10%nat
      ∧ ∀ a' c', (a', c') ∈ top →
          (length (filter (λ r, artist_name r = Some a) df) ≤ c')%nat).
Proof.
  assert (∀ a, count_of (artist_name <$> df) a
               = length (filter (λ r, artist_name r = Some a) df)) as Hcount.
  { intros a. unfold count_of. induction df as [|r df' IH]; [done|].
    rewrite fmap_cons, !filter_cons. repeat case_decide; cbn; congruence. }
  destruct (ranking_spec (artist_name <$> df) 10) as (Hlen & Hnd & Hsorted & Hin & Hout).
  unfold top_10_artists. split_and!; [done | done | done | |].
  - intros a c (_ & -> & Hpos)%Hin. by rewrite <- Hcount.
  - intros r a Hr Ha Hnot. rewrite <- Hcount. apply Hout; [|done].
    rewrite <- Ha. by apply list_elem_of_fmap_2.
Qed.

(** X11. The top songs of the page and the artist shown beside each: the
    ranking counts the rows by track name alone, lists at most ten names by
    decreasing count, and for every listed song the lookup of its artist finds
    a row (no [IndexError]): it shows the artist of the first row of the frame
    with that track name. *)
Theorem top_songs_artist_lookup (fdf : list DashRow) :
  let top := top_songs sort_counts fdf in
  (length top ≤ 10)%nat
  ∧ Sorted counts_desc top
  ∧ ∀ song c, (song, c) ∈ top →
      c = length (filter (λ r, track_name (merged_row r) = Some song) fdf)
      ∧ ∃ (i : nat) (r : DashRow),
          list_find (λ r, track_name (merged_row r) = Some song) fdf = Some (i, r)
          ∧ song_artist fdf song = Some (artist_name (merged_row r)).
Proof.
  destruct (ranking_spec ((λ r, track_name (merged_row r)) <$> fdf) 10)
    as (Hlen & _ & Hsorted & Hin & _).
  unfold top_songs. split_and!; [done | done |].
  intros song c (Hsong & -> & _)%Hin. split.
  - unfold count_of. clear. induction fdf as [|r fdf' IH]; [done|].
    rewrite fmap_cons, !filter_cons. repeat case_decide; cbn; congruence.
  - apply list_elem_of_fmap in Hsong as (r0 & Hr0 & Hin0).
    clear Hlen Hsorted Hin. unfold song_artist.
    induction fdf as [|r fdf' IH]; [by apply elem_of_nil in Hin0|].
    destruct (decide (track_name (merged_row r) = Some song)) as [Heq | Hne].
    + exists 0%nat, r. cbn. rewrite decide_True by done. split; [done|].
      rewrite Heq. cbn. by rewrite bool_decide_eq_true_2.
    + apply elem_of_cons in Hin0 as [-> | Hin0]; [done|].
      destruct (IH Hin0) as (i & r' & Hfind & Hart). exists (S i), r'. cbn.
      rewrite decide_False by done. rewrite Hfind. split; [done|].
      rewrite <- Hart. destruct (track_name (merged_row r)) as [t|]; cbn; [|done].
      rewrite bool_decide_eq_false_2; [done | congruence].
Qed.

End RankingProperties.

(** ** The dashboard, further *)

Lemma civil_month_range (z : Z) : 1 ≤ (civil_from_days z).1.2 ≤ 12.
Proof.
  unfold civil_from_days. cbn zeta. cbn [fst snd].
  repeat case_bool_decide; Z.div_mod_to_equations; lia.
Qed.

Lemma dt_hour_range (wall : Z) : 0 ≤ dt_hour wall ≤ 23.
Proof.
  unfold dt_hour, NS_PER_DAY, NS_PER_SECOND. Z.div_mod_to_equations. lia.
Qed.

Lemma dt_dayofweek_range (wall : Z) : 0 ≤ dt_dayofweek wall ≤ 6.
Proof. unfold dt_dayofweek. Z.div_mod_to_equations. lia. Qed.

Lemma dt_date_bracket (wall : Z) :
  dt_date wall * NS_PER_DAY ≤ wall < (dt_date wall + 1) * NS_PER_DAY.
Proof.
  unfold dt_date, NS_PER_DAY, NS_PER_SECOND. Z.div_mod_to_equations. lia.
Qed.

Lemma loc_mask_all {A : Type} (f : A → bool) (l : list A) :
  (∀ x, x ∈ l → f x = true) → loc_mask (f <$> l) l = l.
Proof.
  induction l as [|x l IH]; intros Hall; [done|]. cbn.
  rewrite (Hall x) by (by left). f_equal. apply IH. intros y Hy. apply Hall. by right.
Qed.

(** Counting the rows of a frame by a key: when every row falls in one of the
    listed keys, and no key is listed twice, the counts add up to the number
    of rows. *)
Lemma bucket_counts_filter {A K : Type} `{EqDecision K} (f : A → K) (ks : list K)
    (l : list A) :
  NoDup ks →
  sum_list ((λ k, length (filter (λ x, f x = k) l)) <$> ks)
  = length (filter (λ x, f x ∈ ks) l).
Proof.
  induction 1 as [|k ks Hk Hnd IH]; cbn.
  - induction l as [|x l IHl]; [done|].
    rewrite filter_cons_False; [done | apply not_elem_of_nil].
  - rewrite IH. clear IH. induction l as [|x l IHl]; [done|].
    rewrite !filter_cons.
    destruct (decide (f x = k)) as [Heq | Hne].
    + rewrite (decide_True (P := f x ∈ k :: ks)) by (rewrite Heq; by left).
      rewrite (decide_False (P := f x ∈ ks)) by (by rewrite Heq).
      cbn. lia.
    + destruct (decide (f x ∈ ks)) as [Hin | Hnin].
      * rewrite (decide_True (P := f x ∈ k :: ks)) by (by right). cbn. lia.
      * rewrite (decide_False (P := f x ∈ k :: ks)); [done|].
        by intros [? | ?]%elem_of_cons.
Qed.

Lemma bucket_counts_sum {A K : Type} `{EqDecision K} (f : A → K) (ks : list K)
    (l : list A) :
  NoDup ks → (∀ x, x ∈ l → f x ∈ ks) →
  sum_list ((λ k, length (filter (λ x, f x = k) l)) <$> ks) = length l.
Proof.
  intros Hnd Hall. rewrite bucket_counts_filter by done. f_equal.
  induction l as [|x l IH]; [done|].
  rewrite filter_cons_True by (apply Hall; by left). f_equal.
  apply IH. intros y Hy. apply Hall. by right.
Qed.

Lemma get_season_in_order (m : Z) : get_season m ∈ season_order.
Proof.
  unfold get_season, season_order.
  repeat case_bool_decide; apply (bool_decide_unpack _); by vm_compute.
Qed.

(** X14. Seasons partition the plays: for any frame, the four seasonal totals
    of the page (a season without a play counting for none) add up to the
    number of rows of the frame. *)
Theorem season_totals_sum (fdf : list DashRow) :
  length (all_season_totals fdf) = 4%nat
  ∧ sum_list (from_option id 0%nat <$> all_season_totals fdf) = length fdf.
Proof.
  split; [done|].
  unfold all_season_totals. rewrite <- list_fmap_compose.
  rewrite <- (bucket_counts_sum (λ r, get_season (month r)) season_order fdf).
  - apply (f_equal sum_list), list_fmap_ext. intros i s _. cbn. by case_bool_decide.
  - apply (bool_decide_unpack _). by vm_compute.
  - intros r _. apply get_season_in_order.
Qed.

Section DashboardFurther.

Variable utc_offset : Timestamp → Z.

Lemma load_data_columns (file : DataFrame) (d : DashRow) :
  d ∈ load_data utc_offset file →
  ∃ r, r ∈ file ∧
    let local := tz_convert utc_offset (played_at r) in
    2017 ≤ dt_year local
    ∧ d = mk_dash r local (dt_year local) (dt_month local) (dt_hour local)
            (dt_dayofweek local) (dt_day_name local) (dt_date local).
Proof.
  induction file as [|r file IH]; [by intros ?%elem_of_nil|].
  rewrite load_data_cons, elem_of_app, load_data_singleton. cbn zeta.
  intros [Hd | Hd].
  - case_bool_decide; [|by apply elem_of_nil in Hd].
    apply list_elem_of_singleton in Hd as ->. exists r. split; [by left | done].
  - destruct (IH Hd) as (r' & Hr' & H). exists r'. split; [by right | done].
Qed.

Lemma StronglySorted_le_lt (l : list Z) :
  StronglySorted Z.le l → NoDup l → Sorted Z.lt l.
Proof.
  induction 1 as [|x l Hs IH Hall]; intros Hnd; [constructor|].
  apply NoDup_cons in Hnd as [Hx Hnd]. constructor; [by apply IH|].
  destruct l as [|y l]; constructor.
  apply Forall_cons in Hall as [Hxy _].
  assert (x ≠ y) by (intros ->; apply Hx; by left). lia.
Qed.

Lemma available_years_spec (df : list DashRow) :
  StronglySorted Z.le (available_years df)
  ∧ NoDup (available_years df)
  ∧ ∀ y, y ∈ available_years df ↔ y ∈ year <$> df.
Proof.
  unfold available_years. split_and!.
  - apply Sorted_StronglySorted; [apply _ | apply (Sorted_merge_sort Z.le)].
  - rewrite merge_sort_Permutation. apply NoDup_remove_dups.
  - intros y. by rewrite merge_sort_Permutation, elem_of_remove_dups.
Qed.

(** X12. The years offered by the selector: they are in strictly increasing
    order, none is before 2017, and a year is offered exactly when some row of
    the merged file falls in that year on the local clock. *)
Theorem available_years_from_2017 (file : DataFrame) :
  Sorted Z.lt (available_years (load_data utc_offset file))
  ∧ ∀ y, y ∈ available_years (load_data utc_offset file) ↔
         2017 ≤ y ∧ ∃ r, r ∈ file ∧ dt_year (tz_convert utc_offset (played_at r)) = y.
Proof.
  destruct (available_years_spec (load_data utc_offset file)) as (Hs & Hnd & Hin).
  split; [by apply StronglySorted_le_lt|].
  intros y. rewrite Hin, list_elem_of_fmap. split.
  - intros (d & -> & (r & Hr & Hy & ->)%load_data_columns). cbn. split; [done|].
    by exists r.
  - intros (Hy & r & Hr & <-).
    assert (r ∈ merged_row <$> load_data utc_offset file) as Hkept.
    { rewrite load_data_rows. by apply list_elem_of_filter. }
    apply list_elem_of_fmap in Hkept as (d & -> & Hd). exists d. split; [|done].
    apply elem_of_load_data in Hd as (_ & Hl & -> & _). by rewrite Hl.
Qed.

(** X13. The year selector.  With a frame without rows, [min] raises and the
    page stops.  Otherwise the boxes open on the first and the last year of
    the data, a selection under which no row is filtered out; and for every
    start year that can be picked, the end-year box opens on the last year,
    offers only years of the data, and every end year it offers makes
    [num_years], the divisor of the yearly average, at least one. *)
Theorem year_selector (df : list DashRow) :
  (df = [] → min_year (available_years df) = None ∧ max_year (available_years df) = None)
  ∧ (df ≠ [] →
     ∃ lo hi : Z,
       min_year (available_years df) = Some lo
       ∧ max_year (available_years df) = Some hi
       ∧ default_start_year (available_years df) = Some lo
       ∧ filtered_df df lo hi = df
       ∧ ∀ start_year, start_year ∈ available_years df →
           default_end_year (available_years df) start_year = Some hi
           ∧ ∀ end_year, end_year ∈ valid_end_years (available_years df) start_year →
               end_year ∈ available_years df ∧ 1 ≤ num_years start_year end_year).
Proof.
  split; [by intros ->|]. intros Hne.
  destruct (available_years_spec df) as (Hs & _ & Hin).
  assert (available_years df ≠ []) as Hyears.
  { destruct df as [|d df']; [done|]. intros Hnil.
    assert (year d ∈ available_years (d :: df')) as Hd by (apply Hin; by left).
    rewrite Hnil in Hd. by apply elem_of_nil in Hd. }
  destruct (available_years df) as [|lo rest] eqn:Hy; [done|].
  destruct (exists_last Hyears) as (init & hi & Hlast).
  assert (∀ y, y ∈ lo :: rest → lo ≤ y ≤ hi) as Hbounds.
  { intros y Hyin. split.
    - apply StronglySorted_cons in Hs as [Hall _].
      apply elem_of_cons in Hyin as [-> | Hyin]; [lia|].
      rewrite Forall_forall in Hall. by apply Hall.
    - rewrite Hlast in Hs, Hyin. apply elem_of_app in Hyin as [Hyin | Hyin].
      + apply (StronglySorted_app_1_elem_of _ _ _ _ _ Hs Hyin). by left.
      + apply list_elem_of_singleton in Hyin as ->. lia. }
  assert (hi ∈ lo :: rest) as Hhi.
  { rewrite Hlast. apply elem_of_app. right. by left. }
  exists lo, hi. split_and!.
  - apply series_min_Some. split; [by left|]. intros y Hyin. by apply Hbounds.
  - apply series_max_Some_iff. split; [done|]. intros y Hyin. by apply Hbounds.
  - done.
  - apply loc_mask_all. intros r Hr.
    assert (year r ∈ lo :: rest) as Hyr by (apply Hin; by apply list_elem_of_fmap_2).
    apply Hbounds in Hyr.
    apply andb_true_intro. split; apply bool_decide_eq_true; lia.
  - intros start_year Hstart. split.
    + unfold default_end_year, valid_end_years. rewrite Hlast, filter_app.
      rewrite filter_cons_True by (apply Hbounds in Hstart; lia).
      rewrite filter_nil, length_app. cbn.
      set (n := length (filter (λ y, start_year ≤ y) init)).
      replace (n + 1 - 1)%nat with (n + 0)%nat by lia.
      by rewrite lookup_app_r, Nat.add_0_r, Nat.sub_diag by (unfold n; lia).
    + intros end_year [Hle Hend]%list_elem_of_filter. split; [done|].
      unfold num_years. lia.
Qed.

(** X15. Plays by hour: for every selected range of a frame that [load_data]
    built, the hour chart has twenty-four bars, and the bars add up to the
    number of rows of the selection: no play falls outside the hours 0..23. *)
Theorem hour_counts_sum (file : DataFrame) (start_year end_year : Z) :
  let fdf := filtered_df (load_data utc_offset file) start_year end_year in
  length (hour_counts fdf) = 24%nat
  ∧ sum_list (hour_counts fdf) = length fdf.
Proof.
  intros fdf. split; [done|].
  unfold hour_counts. apply bucket_counts_sum.
  - apply (bool_decide_unpack _). by vm_compute.
  - intros d Hd. unfold fdf, filtered_df in Hd. apply elem_of_loc_mask in Hd as [Hd _].
    apply load_data_columns in Hd as (r & _ & _ & ->). cbn [hour].
    pose proof (dt_hour_range (tz_convert utc_offset (played_at r))) as Hrange.
    apply list_elem_of_fmap. exists (Z.to_nat (dt_hour (tz_convert utc_offset (played_at r)))).
    split; [lia|]. apply elem_of_seq. lia.
Qed.

(** X16. The columns that [load_data] adds: on every row of the frame, the
    local timestamp is the conversion of [played_at]; the year, month, hour,
    weekday and date are read from it; the month lies in 1..12, the hour in
    0..23, the weekday in 0..6; and the date is the local day that contains
    the timestamp. *)
Theorem load_data_time_columns (file : DataFrame) (d : DashRow) :
  d ∈ load_data utc_offset file →
  merged_row d ∈ file
  ∧ played_at_local d = tz_convert utc_offset (played_at (merged_row d))
  ∧ year d = dt_year (played_at_local d)
  ∧ month d = dt_month (played_at_local d) ∧ 1 ≤ month d ≤ 12
  ∧ hour d = dt_hour (played_at_local d) ∧ 0 ≤ hour d ≤ 23
  ∧ day_of_week d = dt_dayofweek (played_at_local d) ∧ 0 ≤ day_of_week d ≤ 6
  ∧ day_name d = dt_day_name (played_at_local d)
  ∧ date d * NS_PER_DAY ≤ played_at_local d < (date d + 1) * NS_PER_DAY.
Proof.
  intros (r & Hr & _ & ->)%load_data_columns. cbn.
  split_and!; try done.
  - apply civil_month_range.
  - apply civil_month_range.
  - apply dt_hour_range.
  - apply dt_hour_range.
  - apply dt_dayofweek_range.
  - apply dt_dayofweek_range.
  - apply dt_date_bracket.
  - apply dt_date_bracket.
Qed.

Lemma fmap_ext_elem_of {A B : Type} (f g : A → B) (l : list A) :
  (∀ x, x ∈ l → f x = g x) → f <$> l = g <$> l.
Proof.
  induction l as [|x l IH]; intros Hext; [done|]. cbn. f_equal.
  - apply Hext. by left.
  - apply IH. intros y Hy. apply Hext. by right.
Qed.

Lemma series_min_fmap_mono (g : Z → Z) (col : list Z) :
  (∀ a b, a ≤ b → g a ≤ g b) → series_min (g <$> col) = g <$> series_min col.
Proof.
  intros Hmono. destruct (series_min col) as [t|] eqn:E; cbn.
  - apply series_min_Some in E as [Hin Hlb]. apply series_min_Some. split.
    + by apply list_elem_of_fmap_2.
    + intros x (y & -> & Hy)%list_elem_of_fmap. by apply Hmono, Hlb.
  - by destruct col.
Qed.

Lemma omap_id_fmap {A B : Type} (f : A → option B) (l : list A) :
  omap id (f <$> l) = omap f l.
Proof. induction l as [|x l IH]; [done|]. cbn. by rewrite IH. Qed.

Lemma omap_length_total {A B : Type} (f : A → option B) (l : list A) :
  (∀ x, x ∈ l → is_Some (f x)) → length (omap f l) = length l.
Proof.
  induction l as [|x l IH]; intros Hall; [done|]. cbn.
  destruct (Hall x) as [y ->]; [by left|]. cbn. f_equal.
  apply IH. intros z Hz. apply Hall. by right.
Qed.

Lemma series_unique_length {A : Type} `{EqDecision A} (col : list A) :
  length (series_unique col) = length (remove_dups col).
Proof.
  apply Permutation_length, NoDup_Permutation.
  - apply series_unique_NoDup.
  - apply NoDup_remove_dups.
  - intros x. by rewrite elem_of_series_unique, elem_of_remove_dups.
Qed.

(** The rows of an artist are not empty when the artist occurs in the frame. *)
Lemma artist_rows_nonempty (df : list DashRow) (a : string) :
  a ∈ omap (λ r, artist_name (merged_row r)) df →
  filter (λ r, artist_name (merged_row r) = Some a) df ≠ [].
Proof.
  intros (r & Hr & Ha)%list_elem_of_omap Hnil.
  assert (r ∈ filter (λ r, artist_name (merged_row r) = Some a) df) as Hin
      by (by apply list_elem_of_filter).
  rewrite Hnil in Hin. by apply elem_of_nil in Hin.
Qed.

(** X17. The two discovery years of the page agree: in a zone where the local
    year never goes back as time passes, the year of an artist's earliest
    play (the discovery chart) is the smallest value of the [year] column over
    the artist's rows (the summary metrics), for every artist and every merged
    file; both are missing exactly when the artist has no row. *)
Theorem discovery_year_agreement (file : DataFrame) (artist : string) :
  (∀ t1 t2, t1 ≤ t2 →
     dt_year (tz_convert utc_offset t1) ≤ dt_year (tz_convert utc_offset t2)) →
  discovery_year utc_offset (load_data utc_offset file) artist
  = first_listen_year (load_data utc_offset file) artist
  ∧ (is_Some (first_listen_year (load_data utc_offset file) artist) ↔
     ∃ d, d ∈ load_data utc_offset file ∧ artist_name (merged_row d) = Some artist).
Proof.
  intros Hmono. split.
  - unfold discovery_year, first_play, first_listen_year.
    rewrite <- (series_min_fmap_mono (λ t, dt_year (tz_convert utc_offset t))) by done.
    f_equal. rewrite <- list_fmap_compose. apply fmap_ext_elem_of.
    intros d [_ Hd]%list_elem_of_filter.
    apply elem_of_load_data in Hd as (_ & Hl & -> & _). cbn. by rewrite Hl.
  - unfold first_listen_year. split.
    + intros [y Hy]. apply series_min_Some in Hy as [Hin _].
      apply list_elem_of_fmap in Hin as (d & _ & [Ha Hd]%list_elem_of_filter).
      by exists d.
    + intros (d & Hd & Ha). apply series_min_is_Some.
      assert (d ∈ filter (λ r, artist_name (merged_row r) = Some artist)
                    (load_data utc_offset file)) as Hin by (by apply list_elem_of_filter).
      destruct (filter _ _); [by apply elem_of_nil in Hin | done].
Qed.

Lemma discovery_years_length (df : list DashRow) :
  length (discovery_years utc_offset df)
  = nunique ((λ r, artist_name (merged_row r)) <$> df).
Proof.
  unfold discovery_years, nunique. rewrite omap_id_fmap, <- series_unique_length.
  apply omap_length_total. intros a Ha.
  apply (proj1 (elem_of_series_unique _ _)) in Ha.
  unfold discovery_year, first_play. apply fmap_is_Some, series_min_is_Some.
  apply artist_rows_nonempty in Ha.
  destruct (filter _ df); [done | done].
Qed.

(** X18. Artists discovered by year: on a frame that [load_data] built, the
    bars of the discovery chart add up to the number of distinct artists of
    the frame; the years are in strictly increasing order, none before 2017;
    and every bar counts at least one artist. *)
Theorem discoveries_sum (file : DataFrame) :
  let df := load_data utc_offset file in
  sum_list (discoveries utc_offset df).*2
  = nunique ((λ r, artist_name (merged_row r)) <$> df)
  ∧ Sorted Z.lt (discoveries utc_offset df).*1
  ∧ ∀ y c, (y, c) ∈ discoveries utc_offset df → 2017 ≤ y ∧ (1 ≤ c)%nat.
Proof.
  intros df. unfold discoveries.
  set (ys := discovery_years utc_offset df).
  assert (NoDup (merge_sort Z.le (remove_dups ys))) as Hnd.
  { rewrite merge_sort_Permutation. apply NoDup_remove_dups. }
  assert (∀ y, y ∈ merge_sort Z.le (remove_dups ys) ↔ y ∈ ys) as Hin.
  { intros y. by rewrite merge_sort_Permutation, elem_of_remove_dups. }
  split_and!.
  - rewrite <- list_fmap_compose. rewrite <- discovery_years_length. fold ys.
    apply (bucket_counts_sum (λ y : Z, y)); [done|]. intros y Hy. by apply Hin.
  - rewrite <- list_fmap_compose.
    rewrite (fmap_ext_elem_of _ id) by done. rewrite list_fmap_id.
    apply StronglySorted_le_lt; [|done].
    apply Sorted_StronglySorted; [apply _ | apply (Sorted_merge_sort Z.le)].
  - intros y c (y' & [= -> ->] & Hy%Hin)%list_elem_of_fmap. split.
    + unfold ys, discovery_years in Hy.
      apply list_elem_of_omap in Hy as (a & _ & Hy).
      unfold discovery_year, first_play in Hy.
      apply fmap_Some in Hy as (t & Ht & ->).
      apply series_min_Some in Ht as [Ht _].
      apply list_elem_of_fmap in Ht as (d & -> & [_ Hd]%list_elem_of_filter).
      apply load_data_columns in Hd as (r & _ & Hyear & ->). done.
    + assert (y' ∈ filter (λ y'0, y'0 = y') ys) as Hf by (by apply list_elem_of_filter).
      destruct (filter _ ys); [by apply elem_of_nil in Hf | cbn; lia].
Qed.

Lemma filter_all {A : Type} (P : A → Prop) `{∀ x, Decision (P x)} (l : list A) :
  (∀ x, x ∈ l → P x) → filter P l = l.
Proof.
  induction l as [|x l IH]; intros Hall; [done|].
  rewrite filter_cons_True by (apply Hall; by left). f_equal.
  apply IH. intros y Hy. apply Hall. by right.
Qed.

Lemma filter_omap_length {A : Type} (F : A → option Z) (P : Z → Prop)
    `{∀ y, Decision (P y)} (l : list A) :
  length (filter P (omap F l))
  = length (filter (λ a, Is_true (from_option (λ y, bool_decide (P y)) false (F a))) l).
Proof.
  induction l as [|a l IH]; [done|]. rewrite filter_cons. csimpl.
  destruct (F a) as [y|]; csimpl.
  - rewrite filter_cons. case_bool_decide.
    + rewrite decide_True by done. rewrite (decide_True (P := Is_true true)) by exact I.
      cbn. by rewrite IH.
    + rewrite decide_False by done.
      by rewrite (decide_False (P := Is_true false)) by (intros []).
  - exact IH.
Qed.

(** X19. Newly discovered artists never outnumber the artists of the range:
    for every merged file and every range of years, the count of artists whose
    first year lies in the range is at most the count of distinct artists
    played in the range; and when the range covers every year of the data the
    two counts are equal (the page then hides the discovery badge). *)
Theorem new_artists_bound (file : DataFrame) (start_year end_year : Z) :
  (new_artists_in_range (summary utc_offset file start_year end_year)
   ≤ artists (summary utc_offset file start_year end_year))%nat
  ∧ ((∀ y, y ∈ years (summary utc_offset file start_year end_year) →
           start_year ≤ y ≤ end_year) →
     new_artists_in_range (summary utc_offset file start_year end_year)
     = artists (summary utc_offset file start_year end_year)).
Proof.
  unfold summary. cbn [new_artists_in_range artists years].
  set (df := load_data utc_offset file).
  set (fdf := filtered_df df start_year end_year).
  set (col := λ r : DashRow, artist_name (merged_row r)).
  assert (∀ a y, series_min (year <$> filter (λ r, col r = Some a) df) = Some y →
            ∃ d, d ∈ df ∧ col d = Some a ∧ year d = y) as Hfirst.
  { intros a y [Hin _]%series_min_Some.
    apply list_elem_of_fmap in Hin as (d & -> & [Ha Hd]%list_elem_of_filter).
    by exists d. }
  unfold first_listen_years, nunique. rewrite omap_id_fmap. fold col. split.
  - rewrite filter_omap_length. apply submseteq_length, NoDup_submseteq.
    + apply NoDup_filter, NoDup_remove_dups.
    + intros a [Hq _]%list_elem_of_filter.
      destruct (series_min _) as [y|] eqn:Hy; [|done].
      cbn in Hq. apply Is_true_true, bool_decide_eq_true in Hq.
      apply Hfirst in Hy as (d & Hd & Ha & <-).
      apply elem_of_remove_dups, list_elem_of_omap. exists d. split; [|done].
      unfold fdf, filtered_df. apply elem_of_loc_mask. split; [done|].
      apply andb_true_intro. split; apply bool_decide_eq_true; lia.
  - intros Hall.
    assert (fdf = df) as ->.
    { unfold fdf, filtered_df. apply loc_mask_all. intros d Hd.
      assert (year d ∈ available_years df) as Hy.
      { apply available_years_spec. by apply list_elem_of_fmap_2. }
      apply Hall in Hy. apply andb_true_intro. split; apply bool_decide_eq_true; lia. }
    rewrite filter_omap_length.
    f_equal. apply filter_all. intros a Ha.
    apply (proj1 (elem_of_remove_dups _ _)) in Ha.
    destruct (series_min_is_Some (year <$> filter (λ r, col r = Some a) df)) as [y Hy].
    { apply artist_rows_nonempty in Ha. fold col in Ha.
      by destruct (filter _ df). }
    pose proof (Hfirst a y Hy) as (d & Hd & _ & <-).
    unfold col in Hy. rewrite Hy. cbn. apply Is_true_true, bool_decide_eq_true.
    apply Hall.
    apply available_years_spec. by apply list_elem_of_fmap_2.
Qed.

End DashboardFurther.

(** ** Images *)

Lemma first_image_url_Some (found : option (list (list string))) (url : string) :
  first_image_url found = Some url ↔ ∃ more rest, found = Some ((url :: more) :: rest).
Proof.
  destruct found as [[|[|u more] rest]|]; cbn.
  - split; [done | by intros (? & ? & ?)].
  - split; [done | by intros (? & ? & ?)].
  - split; [intros [= ->]; by eexists _, _ | by intros (? & ? & [= -> _ _])].
  - split; [done | by intros (? & ? & ?)].
Qed.

Lemma display_image_cases (image_url : option string) (emoji : string) (width : Z) :
  (∃ url, image_url = Some url ∧ url ≠ EmptyString
          ∧ display_image_with_placeholder image_url emoji width = Image url width)
  ∨ ((image_url = None ∨ image_url = Some EmptyString)
     ∧ display_image_with_placeholder image_url emoji width = Placeholder emoji width).
Proof.
  destruct image_url as [[|c rest]|]; cbn.
  - right. auto.
  - left. by eexists.
  - right. auto.
Qed.

(** X20. Images degrade to the placeholder: whatever the search does, the
    page shows either an image or the placeholder with the emoji it was given,
    at the width asked for.  It shows an image only when a client exists and
    the first item found for the query has a first image with a non-empty URL,
    and the image is that one; without a client the placeholder is shown
    without any search. *)
Theorem image_or_placeholder (client : option Spotify) (search : SearchOracle)
    (track artist emoji : string) (width : Z) :
  (∀ url w,
      display_image_with_placeholder (get_track_image client search track artist) emoji width
      = Image url w →
      w = width ∧ url ≠ EmptyString ∧ is_Some client
      ∧ ∃ more rest,
          search ("track:" +:+ track +:+ " artist:" +:+ artist) TrackSearch
          = Some ((url :: more) :: rest))
  ∧ (∀ url w,
      display_image_with_placeholder (get_artist_image client search artist) emoji width
      = Image url w →
      w = width ∧ url ≠ EmptyString ∧ is_Some client
      ∧ ∃ more rest,
          search ("artist:" +:+ artist) ArtistSearch = Some ((url :: more) :: rest))
  ∧ (∀ e w,
      display_image_with_placeholder (get_track_image client search track artist) emoji width
      = Placeholder e w
      ∨ display_image_with_placeholder (get_artist_image client search artist) emoji width
        = Placeholder e w →
      e = emoji ∧ w = width)
  ∧ (client = None →
      display_image_with_placeholder (get_track_image client search track artist) emoji width
      = Placeholder emoji width
      ∧ display_image_with_placeholder (get_artist_image client search artist) emoji width
        = Placeholder emoji width).
Proof.
  split_and!.
  - intros url w Himg.
    destruct (display_image_cases (get_track_image client search track artist) emoji width)
      as [(u & Hu & Hne & Hd) | [_ Hd]]; rewrite Hd in Himg; [|done].
    injection Himg as -> ->. unfold get_track_image in Hu.
    destruct client; [|done]. apply first_image_url_Some in Hu. by eauto.
  - intros url w Himg.
    destruct (display_image_cases (get_artist_image client search artist) emoji width)
      as [(u & Hu & Hne & Hd) | [_ Hd]]; rewrite Hd in Himg; [|done].
    injection Himg as -> ->. unfold get_artist_image in Hu.
    destruct client; [|done]. apply first_image_url_Some in Hu. by eauto.
  - intros e w [Hp | Hp].
    + destruct (display_image_cases (get_track_image client search track artist) emoji width)
        as [(u & _ & _ & Hd) | [_ Hd]]; rewrite Hd in Hp; [done|]. by injection Hp.
    + destruct (display_image_cases (get_artist_image client search artist) emoji width)
        as [(u & _ & _ & Hd) | [_ Hd]]; rewrite Hd in Hp; [done|]. by injection Hp.
  - by intros ->.
Qed.

(** ** The authorization script *)

Lemma unset_false (value : option string) :
  unset value = false ↔ ∃ s, value = Some s ∧ s ≠ EmptyString.
Proof.
  destruct value as [[|c s]|]; cbn.
  - split; [done | by intros (? & [= <-] & ?)].
  - split; [by eexists | done].
  - split; [done | by intros (? & ? & _)].
Qed.

Lemma lower_app (s1 s2 : string) : lower (s1 +:+ s2) = lower s1 +:+ lower s2.
Proof.
  induction s1 as [|c s1 IH]; [reflexivity|].
  change (String (ascii_lower c) (lower (s1 +:+ s2))
          = String (ascii_lower c) (lower s1 +:+ lower s2)).
  by f_equal.
Qed.

Lemma prefix_app (s1 s2 : string) : String.prefix s1 (s1 +:+ s2) = true.
Proof.
  induction s1 as [|c s1 IH]; [by destruct s2|].
  change (String.prefix (String c s1) (String c (s1 +:+ s2)) = true).
  cbn. by destruct (Ascii.ascii_dec c c).
Qed.

Lemma str_contains_app (needle pre post : string) :
  str_contains needle (pre +:+ needle +:+ post) = true.
Proof.
  induction pre as [|c pre IH].
  - change (str_contains needle (needle +:+ post) = true).
    destruct (needle +:+ post) eqn:E; cbn [str_contains]; rewrite <- E, prefix_app; done.
  - change (str_contains needle (String c (pre +:+ needle +:+ post)) = true).
    cbn [str_contains]. rewrite IH. by rewrite orb_true_r.
Qed.

Lemma lower_y (answer : string) : lower answer = "y"%string ↔ answer ∈ ["y"; "Y"]%string.
Proof.
  split.
  - destruct answer as [|c [|c' rest]]; cbn; [done | | done].
    intros [= Hc].
    assert (String c EmptyString = "y"%string ∨ String c EmptyString = "Y"%string)
      as [-> | ->].
    { destruct c as [[] [] [] [] [] [] [] []]; vm_compute in Hc; (done || auto). }
    + by left.
    + right. by left.
  - intros [-> | [-> | ?%elem_of_nil]%elem_of_cons]%elem_of_cons; done.
Qed.

(** X21. The authorization flow is never started on incomplete settings: the
    script calls the API only if [.env] exists, both modules are installed,
    the client id and the client secret are set and are not the placeholder
    values of the template, and the redirect URI is set; the exit status is
    then zero exactly when the call returned.  The exit status of a run is
    zero only after a successful authorization or when the user declined to
    continue at the [localhost] warning. *)
Theorem authorize_needs_settings (w : AuthWorld) :
  (flow_started (authorize_spotify w) = true →
     env_file_exists w = true ∧ dotenv_installed w = true ∧ spotipy_installed w = true
     ∧ (∃ client, SPOTIFY_CLIENT_ID w = Some client ∧ client ≠ EmptyString
                  ∧ client ≠ "your_client_id_here"%string)
     ∧ (∃ secret, SPOTIFY_CLIENT_SECRET w = Some secret ∧ secret ≠ EmptyString
                  ∧ secret ≠ "your_client_secret_here"%string)
     ∧ (∃ uri, SPOTIFY_REDIRECT_URI w = Some uri ∧ uri ≠ EmptyString)
     ∧ (auth_exit (authorize_spotify w) = 0 ↔ current_user_returns w = true))
  ∧ (auth_exit (authorize_spotify w) = 0 →
     (flow_started (authorize_spotify w) = true ∧ current_user_returns w = true)
     ∨ (asked_to_continue (authorize_spotify w) = true
        ∧ flow_started (authorize_spotify w) = false
        ∧ typed_answer w ∉ ["y"; "Y"]%string))
  ∧ (auth_exit (authorize_spotify w) = 0 ∨ auth_exit (authorize_spotify w) = 1).
Proof.
  unfold authorize_spotify.
  destruct (env_file_exists w); cbn [negb]; [|by split_and!; [done | done | right]].
  destruct (dotenv_installed w); cbn [negb]; [|by split_and!; [done | done | right]].
  destruct (unset (SPOTIFY_CLIENT_ID w)) eqn:Hid; cbn [orb];
    [by split_and!; [done | done | right]|].
  case_bool_decide as Hidp; [by split_and!; [done | done | right]|].
  destruct (unset (SPOTIFY_CLIENT_SECRET w)) eqn:Hsec; cbn [orb];
    [by split_and!; [done | done | right]|].
  case_bool_decide as Hsecp; [by split_and!; [done | done | right]|].
  destruct (unset (SPOTIFY_REDIRECT_URI w)) eqn:Huri;
    [by split_and!; [done | done | right]|].
  apply unset_false in Hid as (id & Hid & Hid'), Hsec as (sec & Hsec & Hsec'),
    Huri as (uri & Huri & Huri').
  assert (id ≠ "your_client_id_here"%string) by congruence.
  assert (sec ≠ "your_client_secret_here"%string) by congruence.
  cbn zeta.
  destruct (str_contains _ _) eqn:Hwarn; cbn [andb].
  - case_bool_decide as Hans; cbn [negb].
    + destruct (spotipy_installed w); cbn [negb]; [|by split_and!; [done | done | right]].
      destruct (current_user_returns w); cbn.
      * split_and!; [| by left | by left]. intros _. split_and!; by eauto.
      * split_and!; [| done | by right]. intros _. split_and!; by eauto.
    + cbn. split_and!; [done | | by left]. intros _. right. split_and!; [done | done |].
      by rewrite <- lower_y.
  - destruct (spotipy_installed w); cbn [negb]; [|by split_and!; [done | done | right]].
    destruct (current_user_returns w); cbn.
    + split_and!; [| by left | by left]. intros _. split_and!; by eauto.
    + split_and!; [| done | by right]. intros _. split_and!; by eauto.
Qed.

(** X22. The [localhost] warning: with complete settings, a redirect URI that
    contains [localhost] in any mix of upper and lower case makes the script
    ask whether to continue; any answer but [y] or [Y] ends the run with exit
    status zero and without authorization; [y] or [Y] lets the run go on as if
    no warning had been given. *)
Theorem authorize_localhost_warning (w : AuthWorld) (client secret pre host post : string) :
  env_file_exists w = true → dotenv_installed w = true →
  SPOTIFY_CLIENT_ID w = Some client → client ≠ EmptyString →
  client ≠ "your_client_id_here"%string →
  SPOTIFY_CLIENT_SECRET w = Some secret → secret ≠ EmptyString →
  secret ≠ "your_client_secret_here"%string →
  SPOTIFY_REDIRECT_URI w = Some (pre +:+ host +:+ post) →
  lower host = "localhost"%string →
  asked_to_continue (authorize_spotify w) = true
  ∧ (typed_answer w ∉ ["y"; "Y"]%string → authorize_spotify w = mk_auth_run 0 true false)
  ∧ (typed_answer w ∈ ["y"; "Y"]%string →
     authorize_spotify w =
       if negb (spotipy_installed w) then mk_auth_run 1 true false
       else if current_user_returns w then mk_auth_run 0 true true
       else mk_auth_run 1 true true).
Proof.
  intros Henv Hdot Hid Hid' Hidp Hsec Hsec' Hsecp Huri Hhost.
  assert (host ≠ EmptyString) as Hhost' by (by intros ->).
  assert (pre +:+ host +:+ post ≠ EmptyString) as Huri'.
  { destruct pre; [|done]. by destruct host. }
  unfold authorize_spotify. rewrite Henv, Hdot, Hid, Hsec, Huri. cbn [negb].
  rewrite (proj2 (unset_false (Some client))) by eauto.
  rewrite (proj2 (unset_false (Some secret))) by eauto.
  rewrite (proj2 (unset_false (Some (pre +:+ host +:+ post)))) by eauto.
  cbn [orb]. rewrite !bool_decide_eq_false_2 by congruence.
  cbn zeta. cbn [default from_option id].
  rewrite !lower_app, Hhost, str_contains_app. cbn [andb].
  case_bool_decide as Hans; cbn [negb].
  - apply lower_y in Hans. split_and!.
    + by destruct (spotipy_installed w), (current_user_returns w).
    + done.
    + done.
  - rewrite lower_y in Hans. split_and!; done.
Qed.

(** ** The further properties at work on the sample data *)

Lemma stable_sort_counts_perm (l : list (string * nat)) : stable_sort_counts l ≡ₚ l.
Proof. apply merge_sort_Permutation. Qed.

Lemma stable_sort_counts_sorted (l : list (string * nat)) :
  Sorted counts_desc (stable_sort_counts l).
Proof. apply (Sorted_merge_sort counts_desc). Qed.

(** The calendar year never goes back as the days pass. *)
Lemma civil_year_ge (z Y : Z) :
  Y ≤ (civil_from_days z).1.1 ↔
  ((Y - 1) `div` 400) * 146097
  + (((Y - 1) `mod` 400) * 365 + ((Y - 1) `mod` 400) `div` 4
     - ((Y - 1) `mod` 400) `div` 100 + 306) - 719468 ≤ z.
Proof.
  unfold civil_from_days. cbn zeta. cbn [fst].
  repeat case_bool_decide; Z.div_mod_to_equations; lia.
Qed.

Lemma dt_year_mono (wall1 wall2 : Z) : wall1 ≤ wall2 → dt_year wall1 ≤ dt_year wall2.
Proof.
  intros Hle. unfold dt_year.
  assert (dt_date wall1 ≤ dt_date wall2) as Hdays.
  { unfold dt_date, NS_PER_DAY, NS_PER_SECOND. Z.div_mod_to_equations. lia. }
  apply civil_year_ge. etrans; [|exact Hdays]. by apply civil_year_ge.
Qed.

Lemma est_year_mono (t1 t2 : Timestamp) :
  t1 ≤ t2 → dt_year (tz_convert est_offset t1) ≤ dt_year (tz_convert est_offset t2).
Proof. intros Hle. apply dt_year_mono. unfold tz_convert, est_offset. lia. Qed.

Lemma loader_keeps_order_witness :
  csv_file sample_world = Some sample_export
  ∧ Sorted (λ r1 r2, Csv.ts r1 ≤ Csv.ts r2) sample_export
  ∧ ∃ out, loader_output sample_world = Some out ∧ Sorted played_at_le out.
Proof.
  assert (csv_file sample_world = Some sample_export) as Hfile by reflexivity.
  assert (Sorted (λ r1 r2, Csv.ts r1 ≤ Csv.ts r2) sample_export) as Hsorted.
  { repeat constructor. vm_compute. discriminate. }
  split; [exact Hfile|]. split; [exact Hsorted|].
  destruct (loader_keeps_order sample_world sample_export Hfile) as (out & Hout & _ & Hs).
  exists out. split; [exact Hout | exact (Hs Hsorted)].
Defined.

Lemma fetched_rows_shape_witness :
  fetch_recent_api_data sample_world 50 (CombinedSpotifyAnalytics sample_world)
  = ((fetch_recent_api_data sample_world 50 (CombinedSpotifyAnalytics sample_world)).1,
     inr true)
  ∧ ∃ df, api_data
            (fetch_recent_api_data sample_world 50 (CombinedSpotifyAnalytics sample_world)).1
          = Some df ∧ df ≠ [].
Proof.
  assert (fetch_recent_api_data sample_world 50 (CombinedSpotifyAnalytics sample_world)
          = ((fetch_recent_api_data sample_world 50
                (CombinedSpotifyAnalytics sample_world)).1, inr true)) as Hrun
      by (vm_compute; reflexivity).
  split; [exact Hrun|].
  destruct (fetched_rows_shape sample_world 50 _ _ (listen T0 "Intro" "The xx" "xx" "API")
              Hrun) as (df & Hdf & Hne & _).
  exists df. split; [exact Hdf | exact Hne].
Defined.

Lemma merged_keeps_every_key_witness :
  (∀ df, stable_sort_values df ≡ₚ df)
  ∧ combine_data stable_sort_values sample_state = (sample_merged_state, inr true)
  ∧ ∃ out, combined_data sample_merged_state = Some out ∧ (length out ≤ 3 + 2)%nat.
Proof.
  assert (combine_data stable_sort_values sample_state = (sample_merged_state, inr true))
    as Hrun by (vm_compute; reflexivity).
  split; [exact stable_sort_values_perm|]. split; [exact Hrun|].
  destruct (merged_keeps_every_key stable_sort_values stable_sort_values_perm
              sample_state sample_merged_state Hrun)
    as (h & out & Hh & Hout & _ & _ & Hlen).
  exists out. split; [exact Hout|].
  injection Hh as <-. exact Hlen.
Defined.

Lemma main_output_file_witness :
  (∀ df, stable_sort_values df ≡ₚ df)
  ∧ (∀ df, Sorted played_at_le (stable_sort_values df))
  ∧ ∃ out, written (main stable_sort_values sample_world) = Some out
           ∧ exit_status (main stable_sort_values sample_world) = 0
           ∧ out ≠ [].
Proof.
  split; [exact stable_sort_values_perm|]. split; [exact stable_sort_values_sorted|].
  destruct (written (main stable_sort_values sample_world)) as [out|] eqn:Hout;
    [|by vm_compute in Hout].
  exists out. split; [reflexivity|].
  destruct (proj2 (main_output_file stable_sort_values stable_sort_values_perm
                     stable_sort_values_sorted sample_world) out Hout)
    as (Hexit & file & _ & _ & Hne & _).
  split; [exact Hexit | exact Hne].
Defined.

Lemma statistics_after_merge_witness :
  (∀ df, stable_sort_values df ≡ₚ df)
  ∧ combine_data stable_sort_values sample_state = (sample_merged_state, inr true)
  ∧ historical_data sample_state = Some sample_historical
  ∧ sample_historical ≠ []
  ∧ ∃ stats, get_statistics sample_merged_state = (sample_merged_state, inr (Some stats))
             ∧ date_range_first stats = T0 - 60000 * one_ms.
Proof.
  assert (combine_data stable_sort_values sample_state = (sample_merged_state, inr true))
    as Hrun by (vm_compute; reflexivity).
  assert (historical_data sample_state = Some sample_historical) as Hh by reflexivity.
  assert (sample_historical ≠ []) as Hne by discriminate.
  split; [exact stable_sort_values_perm|]. split; [exact Hrun|].
  split; [exact Hh|]. split; [exact Hne|].
  destruct (statistics_after_merge stable_sort_values stable_sort_values_perm
              sample_state sample_merged_state sample_historical Hrun Hh Hne)
    as (stats & Hstats & _ & Hfirst & _).
  exists stats. split; [exact Hstats|].
  assert (series_min (played_at <$> sample_historical) = Some (T0 - 60000 * one_ms))
    as Hmin by reflexivity.
  rewrite Hmin in Hfirst. injection Hfirst as <-. reflexivity.
Defined.

Lemma top_10_artists_ranking_witness :
  (∀ l, stable_sort_counts l ≡ₚ l)
  ∧ (∀ l, Sorted counts_desc (stable_sort_counts l))
  ∧ (length (top_10_artists stable_sort_counts sample_historical) ≤ 10)%nat
  ∧ NoDup (top_10_artists stable_sort_counts sample_historical).*1.
Proof.
  split; [exact stable_sort_counts_perm|]. split; [exact stable_sort_counts_sorted|].
  destruct (top_10_artists_ranking stable_sort_counts stable_sort_counts_perm
              stable_sort_counts_sorted sample_historical) as (Hlen & Hnd & _).
  split; [exact Hlen | exact Hnd].
Defined.

Lemma top_songs_artist_lookup_witness :
  (∀ l, stable_sort_counts l ≡ₚ l)
  ∧ (∀ l, Sorted counts_desc (stable_sort_counts l))
  ∧ ("Angels"%string, 1%nat)
      ∈ top_songs stable_sort_counts (load_data est_offset sample_merged_file)
  ∧ ∃ i r,
      list_find (λ r, track_name (merged_row r) = Some "Angels"%string)
        (load_data est_offset sample_merged_file) = Some (i, r)
      ∧ song_artist (load_data est_offset sample_merged_file) "Angels"
        = Some (artist_name (merged_row r)).
Proof.
  assert (("Angels"%string, 1%nat)
            ∈ top_songs stable_sort_counts (load_data est_offset sample_merged_file))
    as Hin by (vm_compute; left).
  split; [exact stable_sort_counts_perm|]. split; [exact stable_sort_counts_sorted|].
  split; [exact Hin|].
  destruct (top_songs_artist_lookup stable_sort_counts stable_sort_counts_perm
              stable_sort_counts_sorted (load_data est_offset sample_merged_file))
    as (_ & _ & Hlookup).
  exact (proj2 (Hlookup "Angels"%string 1%nat Hin)).
Defined.

Lemma load_data_time_columns_witness :
  ∃ d, d ∈ load_data est_offset sample_merged_file
       ∧ 1 ≤ month d ≤ 12 ∧ 0 ≤ hour d ≤ 23 ∧ 0 ≤ day_of_week d ≤ 6.
Proof.
  destruct (load_data est_offset sample_merged_file) as [|d rest] eqn:Hframe;
    [by vm_compute in Hframe|].
  assert (d ∈ load_data est_offset sample_merged_file) as Hd by (rewrite Hframe; left).
  exists d. rewrite <- Hframe. split; [exact Hd|].
  destruct (load_data_time_columns est_offset sample_merged_file d Hd)
    as (_ & _ & _ & _ & Hm & _ & Hh & _ & Hw & _).
  split; [exact Hm|]. split; [exact Hh | exact Hw].
Defined.

Lemma discovery_year_agreement_witness :
  (∀ t1 t2, t1 ≤ t2 →
     dt_year (tz_convert est_offset t1) ≤ dt_year (tz_convert est_offset t2))
  ∧ discovery_year est_offset (load_data est_offset sample_merged_file) "The xx"
    = first_listen_year (load_data est_offset sample_merged_file) "The xx".
Proof.
  split; [exact est_year_mono|].
  exact (proj1 (discovery_year_agreement est_offset sample_merged_file "The xx"
                  est_year_mono)).
Defined.

Lemma authorize_localhost_warning_witness :
  lower "LocalHost" = "localhost"%string
  ∧ authorize_spotify
      (mk_auth_world true true (Some "3f9a"%string) (Some "c07e"%string)
         (Some ("http://" +:+ "LocalHost" +:+ ":8888/callback")%string) "no" true true)
    = mk_auth_run 0 true false.
Proof.
  assert (lower "LocalHost" = "localhost"%string) as Hhost by reflexivity.
  split; [exact Hhost|].
  apply (authorize_localhost_warning
           (mk_auth_world true true (Some "3f9a"%string) (Some "c07e"%string)
              (Some ("http://" +:+ "LocalHost" +:+ ":8888/callback")%string) "no" true true)
           "3f9a" "c07e" "http://" "LocalHost" ":8888/callback");
    try reflexivity; try discriminate.
  intros Hin. apply (bool_decide_pack _) in Hin. by vm_compute in Hin.
Defined.
